(** * ToyRobot: a shallow embedding of [robot.py] and its properties

    The program is a single class, [Robot], driven by textual commands.
    Its state is the triple [placed] / [pos] / [direction], the size of
    the map, and the two keyword-argument dictionaries that [command_map]
    keeps for the LEFT and RIGHT entries (they are shared objects:
    [execute_command] writes into them).

    Methods are embedded in a small monad that threads the robot, collects
    what is printed on standard output and carries a raised exception. *)

From Stdlib Require Import ZArith Ascii String DecimalString DecimalPos DecimalZ.
From stdpp Require Import base option list strings gmap.

Local Open Scope string_scope.
Local Open Scope Z_scope.

(** ** The built-in string operations the program uses

    A [string] stands for a Python [str] whose code points are all below
    256; each [ascii] is one code point. *)

Module Py.

(** [str.isspace] on one character (code points below 256). *)
Definition isspace (c : ascii) : bool :=
  let n := N_of_ascii c in
  ((9 <=? n) && (n <=? 13) || (28 <=? n) && (n <=? 32)
   || (n =? 133) || (n =? 160))%N.

Fixpoint lstrip (s : string) : string :=
  match s with
  | EmptyString => EmptyString
  | String c s' => if isspace c then lstrip s' else s
  end.

Fixpoint rstrip (s : string) : string :=
  match s with
  | EmptyString => EmptyString
  | String c s' =>
      match rstrip s' with
      | EmptyString => if isspace c then EmptyString else String c EmptyString
      | t => String c t
      end
  end.

(** [s.strip()] *)
Definition strip (s : string) : string := rstrip (lstrip s).

(** [s.split(sep, maxsplit)] for a one-character separator; [None] is the
    default [maxsplit = -1] (no limit). *)
Fixpoint split (sep : ascii) (maxsplit : option nat) (s : string) : list string :=
  match s with
  | EmptyString => [EmptyString]
  | String c s' =>
      if bool_decide (c = sep) && negb (bool_decide (maxsplit = Some O)) then
        EmptyString :: split sep (Nat.pred <$> maxsplit) s'
      else
        match split sep maxsplit s' with
        | w :: ws => String c w :: ws
        | [] => [String c EmptyString]
        end
  end.

(** [str(n)] for an [int]: the canonical decimal numeral. *)
Definition str (n : Z) : string := NilZero.string_of_int (Z.to_int n).

Definition digit_value (c : ascii) : option Z :=
  let n := Z.of_N (N_of_ascii c) in
  if ((48 <=? n) && (n <=? 57))%Z then Some (n - 48) else None.

(** The digit loop of [int(s)]: decimal digits, with single underscores
    allowed between two digits. [prev] is the character read last. *)
Fixpoint long_from_digits (prev : ascii) (acc : Z) (s : string) : option Z :=
  match s with
  | EmptyString => if bool_decide (prev = "_"%char) then None else Some acc
  | String c s' =>
      if bool_decide (c = "_"%char) then
        if bool_decide (prev = "_"%char) then None
        else long_from_digits c acc s'
      else
        match digit_value c with
        | Some d => long_from_digits c (10 * acc + d) s'
        | None => None
        end
  end.

(** [int(s)] in base 10 on a string without surrounding white space
    ([place] strips every part before it converts it): an optional sign,
    then at least one digit; [None] stands for [ValueError]. Integers are
    unbounded, as in Python. This is the conversion itself: the
    interpreter's limit on the number of digits ([int_max_str_digits]
    below) is not part of it. *)
Definition int (s : string) : option Z :=
  let '(sign, body) :=
    match s with
    | String "+" t => (1, t)
    | String "-" t => (-1, t)
    | _ => (1, s)
    end in
  match body with
  | EmptyString => None
  | String "_" _ => None
  | _ => Z.mul sign <$> long_from_digits "0" 0 body
  end.

(** [c.upper()] for an ASCII character. Characters outside ASCII are not
    modelled: [None]. *)
Definition upper_char (c : ascii) : option ascii :=
  let n := N_of_ascii c in
  if (128 <=? n)%N then None
  else if ((97 <=? n) && (n <=? 122))%N then Some (ascii_of_N (n - 32))
  else Some c.

(** [s.upper()] for an ASCII string. *)
Fixpoint upper (s : string) : option string :=
  match s with
  | EmptyString => Some EmptyString
  | String c s' =>
      match upper_char c, upper s' with
      | Some c', Some s'' => Some (String c' s'')
      | _, _ => None
      end
  end.


(** The interpreter's default limit on the number of digits of a numeral
    that [int] converts ([sys.int_info.default_max_str_digits]): past it,
    [int] raises [ValueError] whatever the numeral. [int] above is the
    conversion itself; a statement about numerals of any length carries
    the limit as a hypothesis. *)
Definition int_max_str_digits : nat := 4300.

(** The number of decimal digits of a numeral: what the interpreter
    compares with the limit (sign and underscores do not count). *)
Fixpoint count_digits (s : string) : nat :=
  match s with
  | EmptyString => O
  | String c s' =>
      (match digit_value c with Some _ => 1 | None => 0 end + count_digits s')%nat
  end.
End Py.

(** ** Module-level constants of [robot.py] *)

(** Directions in the order of turning right. *)
Definition DIRECTIONS : list string := ["NORTH"; "EAST"; "SOUTH"; "WEST"].

Definition STEP_BY_DIRECTION : gmap string (Z * Z) :=
  {[ "NORTH" := (0, 1); "SOUTH" := (0, -1); "EAST" := (1, 0); "WEST" := (-1, 0) ]}.

Definition MAP_SIZE : Z * Z := (5, 5).

(** ** Exceptions

    [InvalidOperationException] is the program's own exception; the other
    constructors are the interpreter's exceptions that the program can run
    into ([SystemExit] is what [sys.exit] raises). *)
Inductive exn : Type :=
| InvalidOperationException (message : string)
| ValueError
| TypeError
| KeyError
| IndexError
| SystemExit (code : Z).

(** ** The robot *)

(** The attributes of a [Robot]. [self.map] holds [range(map_size_x)] and
    [range(map_size_y)] and is read through [in_range] below. In
    [command_map] only the two [addtional_parameters] dictionaries can
    change after construction; they are the last two fields. *)
Record Robot : Type := mkRobot {
  placed : bool;
  map_size_x : Z;
  map_size_y : Z;
  pos : option (Z * Z);
  direction : option string;
  LEFT_parameters : gmap string string;
  RIGHT_parameters : gmap string string
}.

Definition set_pos (p : option (Z * Z)) (self : Robot) : Robot :=
  mkRobot (placed self) (map_size_x self) (map_size_y self) p (direction self)
          (LEFT_parameters self) (RIGHT_parameters self).

Definition set_direction (d : option string) (self : Robot) : Robot :=
  mkRobot (placed self) (map_size_x self) (map_size_y self) (pos self) d
          (LEFT_parameters self) (RIGHT_parameters self).

Definition set_placed (b : bool) (self : Robot) : Robot :=
  mkRobot b (map_size_x self) (map_size_y self) (pos self) (direction self)
          (LEFT_parameters self) (RIGHT_parameters self).

Definition set_LEFT_parameters (d : gmap string string) (self : Robot) : Robot :=
  mkRobot (placed self) (map_size_x self) (map_size_y self) (pos self)
          (direction self) d (RIGHT_parameters self).

Definition set_RIGHT_parameters (d : gmap string string) (self : Robot) : Robot :=
  mkRobot (placed self) (map_size_x self) (map_size_y self) (pos self)
          (direction self) (LEFT_parameters self) d.

(** [Robot(map_size)] *)
Definition __init__ (map_size : Z * Z) : Robot :=
  {| placed := false;
     map_size_x := map_size.1;
     map_size_y := map_size.2;
     pos := None;
     direction := None;
     LEFT_parameters := {[ "direction" := "LEFT" ]};
     RIGHT_parameters := {[ "direction" := "RIGHT" ]} |}.

(** ** The monad of methods: robot state, printed lines, exceptions *)

Inductive res (A : Type) : Type :=
| Return (a : A)
| Raise (e : exn).
Arguments Return {A} a.
Arguments Raise {A} e.

Definition M (A : Type) : Type := Robot -> res A * Robot * list string.

Definition ret {A} (a : A) : M A := fun self => (Return a, self, []).

Definition bind {A B} (m : M A) (k : A -> M B) : M B := fun self =>
  match m self with
  | (Return a, self', out) =>
      let '(b, self'', out') := k a self' in (b, self'', (out ++ out')%list)
  | (Raise e, self', out) => (Raise e, self', out)
  end.

Definition raise {A} (e : exn) : M A := fun self => (Raise e, self, []).
Definition print (line : string) : M unit := fun self => (Return tt, self, [line]).
Definition get : M Robot := fun self => (Return self, self, []).
Definition modify (f : Robot -> Robot) : M unit := fun self => (Return tt, f self, []).

(** [try: m except InvalidOperationException as e: h e] *)
Definition try_except {A} (m : M A) (h : string -> M A) : M A := fun self =>
  match m self with
  | (Raise (InvalidOperationException e), self', out) =>
      let '(b, self'', out') := h e self' in (b, self'', (out ++ out')%list)
  | other => other
  end.

Global Instance M_ret : MRet M := @ret.
Global Instance M_bind : MBind M := fun A B k m => bind m k.

Definition result {A} (o : res A * Robot * list string) : res A := o.1.1.
Definition robot {A} (o : res A * Robot * list string) : Robot := o.1.2.
Definition stdout {A} (o : res A * Robot * list string) : list string := o.2.

(** ** The messages of the program's errors, one per [raise] *)

Definition dq : string := String "034"%char EmptyString.

Definition UnknownCommand : exn :=
  InvalidOperationException "Invalid command. Abort.".

Definition NotPlaced : exn :=
  InvalidOperationException
    "A robot must be placed before any other command can be executed. Abort.".

Definition MissingArgument : exn :=
  InvalidOperationException
    ("Expect command to be " ++ dq ++ "PLACE <X>, <Y>, <Facing>" ++ dq
     ++ ", got " ++ dq ++ "PLACE" ++ dq).

Definition MalformedArgument (action_details : string) : exn :=
  InvalidOperationException
    ("Expect command to be " ++ dq ++ "PLACE <X>, <Y>, <Facing>" ++ dq
     ++ ", got " ++ dq ++ "PLACE " ++ action_details ++ dq).

Definition OutOfBounds (self : Robot) : exn :=
  InvalidOperationException
    ("Invalid position in the map, should be within 0 to "
     ++ Py.str (map_size_x self) ++ " in X and 0 to "
     ++ Py.str (map_size_y self) ++ " in Y.").

(** The text after [one of] is [str(DIRECTIONS)]. *)
Definition InvalidHeading : exn :=
  InvalidOperationException
    "Invalid direction, should be one of ('NORTH', 'EAST', 'SOUTH', 'WEST')".

(** [str] of a pair of integers, as in [f'{next_pos}']. *)
Definition str_pair (p : Z * Z) : string :=
  "(" ++ Py.str p.1 ++ ", " ++ Py.str p.2 ++ ")".

Definition UnreachableDestination (next_pos : Z * Z) : exn :=
  InvalidOperationException
    ("Destination " ++ str_pair next_pos ++ " cannot be reached.").

Definition InvalidTurnDirection (turning_direction : string) : exn :=
  InvalidOperationException
    ("Turning direction should be either LEFT or RIGHT, got " ++ turning_direction).

(** ** Methods of [Robot] *)

(** [x in range(n)] *)
Definition in_range (x n : Z) : bool := (0 <=? x) && (x <? n).

(** [is_valid_pos]: a position is always a pair here, so the length test
    of the source never fails. *)
Definition is_valid_pos (self : Robot) (p : Z * Z) : bool :=
  in_range p.1 (map_size_x self) && in_range p.2 (map_size_y self).

Definition is_valid_direction (d : string) : bool :=
  bool_decide (d ∈ DIRECTIONS).

(** [int(s)], raising [ValueError] when [s] is not a numeral. *)
Definition int_or_raise (s : string) : M Z :=
  match Py.int s with
  | Some n => mret n
  | None => raise ValueError
  end.

(** [place], called with the keyword arguments [kwargs]. *)
Definition place (kwargs : gmap string string) : M unit :=
  self ← get;
  match kwargs !! "action_details" with
  | None => raise MissingArgument
  | Some action_details =>
      let location_details := Py.strip <$> Py.split "," None action_details in
      match location_details with
      | [pos_x; pos_y; d] =>
          x ← int_or_raise pos_x;
          y ← int_or_raise pos_y;
          let p := (x, y) in
          if negb (is_valid_pos self p) then raise (OutOfBounds self)
          else if negb (is_valid_direction d) then raise InvalidHeading
          else
            modify (set_pos (Some p));;
            modify (set_direction (Some d));;
            modify (set_placed true)
      | _ => raise (MalformedArgument action_details)
      end
  end.

(** The decorator [should_have_been_placed]. *)
Definition should_have_been_placed
    (f : gmap string string -> M unit) (kwargs : gmap string string) : M unit :=
  self ← get;
  if negb (placed self) then raise NotPlaced else f kwargs.

(** Calling a method that declares no parameter besides [self]: any
    keyword argument is a [TypeError]. *)
Definition no_parameters (f : M unit) (kwargs : gmap string string) : M unit :=
  if bool_decide (kwargs = ∅) then f else raise TypeError.

(** The body of [move], before decoration. *)
Definition move_wrapped : M unit :=
  self ← get;
  match pos self, direction self ≫= (STEP_BY_DIRECTION !!.) with
  | Some (x, y), Some (dx, dy) =>
      let next_pos := (x + dx, y + dy) in
      if negb (is_valid_pos self next_pos) then
        raise (UnreachableDestination next_pos)
      else modify (set_pos (Some next_pos))
  | _, _ => raise TypeError
  end.

Definition move : gmap string string -> M unit :=
  should_have_been_placed (no_parameters move_wrapped).

(** [directions.index(d)] *)
Fixpoint index (d : option string) (directions : list string) : option Z :=
  match directions with
  | [] => None
  | d' :: rest =>
      if bool_decide (d = Some d') then Some 0 else Z.succ <$> index d rest
  end.

(** [self.direction = directions[i]] for a non-negative [i]. *)
Definition assign_direction (i : Z) : M unit :=
  match DIRECTIONS !! Z.to_nat i with
  | Some d => modify (set_direction (Some d))
  | None => raise IndexError
  end.

(** The body of [turn], before decoration. *)
Definition turn_wrapped (kwargs : gmap string string) : M unit :=
  self ← get;
  match kwargs !! "direction" with
  | None => raise KeyError
  | Some turning_direction =>
      match index (direction self) DIRECTIONS with
      | None => raise ValueError
      | Some current_direction_index =>
          if bool_decide (turning_direction = "RIGHT") then
            assign_direction ((current_direction_index + 1) `mod` 4)
          else if bool_decide (turning_direction = "LEFT") then
            assign_direction ((current_direction_index - 1) `mod` 4)
          else raise (InvalidTurnDirection turning_direction)
      end
  end.

Definition turn : gmap string string -> M unit :=
  should_have_been_placed turn_wrapped.

(** [f'{d}'] for the attribute [direction]. *)
Definition str_direction (d : option string) : string := default "None" d.

(** The body of [report], before decoration. *)
Definition report_wrapped : M unit :=
  self ← get;
  match pos self with
  | Some (pos_x, pos_y) =>
      print (Py.str pos_x ++ ", " ++ Py.str pos_y ++ ", "
             ++ str_direction (direction self))
  | None => raise TypeError
  end.

Definition report : gmap string string -> M unit :=
  should_have_been_placed (no_parameters report_wrapped).

(** [terminate] is not decorated. *)
Definition terminate : gmap string string -> M unit :=
  no_parameters (print "End of service.";; raise (SystemExit 0)).

(** ** Dispatch *)

Inductive method : Type := m_place | m_turn | m_move | m_report | m_terminate.

(** The two dictionaries that [command_map] owns. *)
Inductive parameters_ref : Type := LEFT_ref | RIGHT_ref.

Record executor : Type := mkExecutor {
  function : method;
  addtional_parameters : option parameters_ref
}.

(** [self.command_map.get(action)] *)
Definition command_map (action : string) : option executor :=
  if bool_decide (action = "PLACE") then Some (mkExecutor m_place None)
  else if bool_decide (action = "LEFT") then Some (mkExecutor m_turn (Some LEFT_ref))
  else if bool_decide (action = "RIGHT") then Some (mkExecutor m_turn (Some RIGHT_ref))
  else if bool_decide (action = "MOVE") then Some (mkExecutor m_move None)
  else if bool_decide (action = "REPORT") then Some (mkExecutor m_report None)
  else if bool_decide (action = "EXIT") then Some (mkExecutor m_terminate None)
  else None.

Definition read_ref (p : parameters_ref) (self : Robot) : gmap string string :=
  match p with
  | LEFT_ref => LEFT_parameters self
  | RIGHT_ref => RIGHT_parameters self
  end.

Definition write_ref (p : parameters_ref) (d : gmap string string) : Robot -> Robot :=
  match p with
  | LEFT_ref => set_LEFT_parameters d
  | RIGHT_ref => set_RIGHT_parameters d
  end.

(** [parameters['action_details'] = v], where [parameters] is either a
    dictionary of [command_map] (the store is updated) or a fresh [{}]. *)
Definition set_action_details
    (p : option parameters_ref) (v : string) : M (gmap string string) :=
  self ← get;
  match p with
  | Some ref =>
      let d := <["action_details" := v]> (read_ref ref self) in
      modify (write_ref ref d);; mret d
  | None => mret (<["action_details" := v]> ∅)
  end.

Definition get_parameters (p : option parameters_ref) : M (gmap string string) :=
  self ← get;
  mret (from_option (fun ref => read_ref ref self) ∅ p).

Definition call (f : method) : gmap string string -> M unit :=
  match f with
  | m_place => place
  | m_turn => turn
  | m_move => move
  | m_report => report
  | m_terminate => terminate
  end.

(** [command.strip().split(' ', 1)] *)
Definition command_seq (command : string) : list string :=
  Py.split " " (Some 1%nat) (Py.strip command).

Definition action_of (command : string) : string :=
  default "" (head (command_seq command)).

(** [execute_command(command)] *)
Definition execute_command (command : string) : M unit :=
  match command_map (action_of command) with
  | None => raise UnknownCommand
  | Some e =>
      parameters ←
        match command_seq command with
        | _ :: details :: _ => set_action_details (addtional_parameters e) details
        | _ => get_parameters (addtional_parameters e)
        end;
      call (function e) parameters
  end.

(** The loop of [run] over the lines of the command file, as they reach
    [execute_command] (reading the file and upper-casing each line are
    left to the caller). An [InvalidOperationException] is printed and the
    loop goes on; any other exception leaves the loop. *)
Fixpoint run_commands (commands : list string) : M unit :=
  match commands with
  | [] => mret tt
  | command :: rest =>
      try_except (execute_command command) print;;
      run_commands rest
  end.

(** The robot after each of [commands] has been passed to
    [execute_command], whatever each call returned or raised. *)
Definition execute_all (commands : list string) (self : Robot) : Robot :=
  foldl (fun r command => robot (execute_command command r)) self commands.

(** ** Vocabulary of the statements *)

Fixpoint string_forall (p : ascii -> bool) (s : string) : bool :=
  match s with
  | EmptyString => true
  | String c s' => p c && string_forall p s'
  end.

(** The characters that a split on [sep] and a strip leave alone. *)
Definition plain_char (sep : ascii) (c : ascii) : bool :=
  negb (bool_decide (c = sep)) && negb (Py.isspace c).

(** The value of a decimal numeral read from the left, starting from [acc]. *)
Fixpoint uint_value (acc : Z) (u : Decimal.uint) : Z :=
  match u with
  | Decimal.Nil => acc
  | Decimal.D0 u => uint_value (10 * acc + 0) u
  | Decimal.D1 u => uint_value (10 * acc + 1) u
  | Decimal.D2 u => uint_value (10 * acc + 2) u
  | Decimal.D3 u => uint_value (10 * acc + 3) u
  | Decimal.D4 u => uint_value (10 * acc + 4) u
  | Decimal.D5 u => uint_value (10 * acc + 5) u
  | Decimal.D6 u => uint_value (10 * acc + 6) u
  | Decimal.D7 u => uint_value (10 * acc + 7) u
  | Decimal.D8 u => uint_value (10 * acc + 8) u
  | Decimal.D9 u => uint_value (10 * acc + 9) u
  end.

(** The state of the specification: [placed], position and heading. *)
Definition state (self : Robot) : bool * option (Z * Z) * option string :=
  (placed self, pos self, direction self).

(** The argument of PLACE for the target [(x, y)] and the heading [d],
    and the command line that carries it. *)
Definition PLACE_details (x y : Z) (d : string) : string :=
  Py.str x ++ "," ++ Py.str y ++ "," ++ d.

Definition PLACE_command (x y : Z) (d : string) : string :=
  "PLACE " ++ PLACE_details x y d.

(** The state invariant: an unplaced robot has neither position nor
    heading; a placed robot has a position on the map and one of the four
    headings. *)
Definition invariant (self : Robot) : bool :=
  match placed self, pos self, direction self with
  | true, Some p, Some d => is_valid_pos self p && is_valid_direction d
  | false, None, None => true
  | _, _, _ => false
  end.

(** The dictionaries of [command_map] still say which way to turn. *)
Definition parameters_intact (self : Robot) : bool :=
  bool_decide (LEFT_parameters self !! "direction" = Some "LEFT")
  && bool_decide (RIGHT_parameters self !! "direction" = Some "RIGHT").

(** The robot on which the handler runs: [self] after [execute_command]
    has stored the text that follows the keyword, if any. *)
Definition with_action_details (command : string) (self : Robot) : Robot :=
  match command_map (action_of command), command_seq command with
  | Some (mkExecutor _ (Some ref)), _ :: details :: _ =>
      write_ref ref (<["action_details" := details]> (read_ref ref self)) self
  | _, _ => self
  end.

(** The keyword arguments that [execute_command] passes to the handler. *)
Definition parameters_of (command : string) (self : Robot) : gmap string string :=
  match command_map (action_of command), command_seq command with
  | Some (mkExecutor _ (Some ref)), _ :: details :: _ =>
      <["action_details" := details]> (read_ref ref self)
  | Some (mkExecutor _ None), _ :: details :: _ => <["action_details" := details]> ∅
  | Some (mkExecutor _ (Some ref)), _ => read_ref ref self
  | _, _ => ∅
  end.

(** What one call of a handler can do to the robot. *)
Inductive effect : method -> Robot -> Robot -> Prop :=
| effect_none f self :
    effect f self self
| effect_place self x y d :
    is_valid_pos self (x, y) = true -> is_valid_direction d = true ->
    effect m_place self
      (set_placed true (set_direction (Some d) (set_pos (Some (x, y)) self)))
| effect_move self p :
    placed self = true -> is_valid_pos self p = true ->
    effect m_move self (set_pos (Some p) self)
| effect_turn self d :
    placed self = true -> is_valid_direction d = true ->
    effect m_turn self (set_direction (Some d) self).

(** Every method of [fs], called on a robot that has not been placed,
    raises the not-placed error and leaves the robot alone. *)
Definition check_placed_first (fs : list method) : Prop :=
  forall f kwargs self,
    f ∈ fs -> placed self = false ->
    call f kwargs self = (Raise NotPlaced, self, []).

(** ** The driver [run] *)

Definition newline : ascii := "010"%char.

(** The loop of [run] with the upper-casing of each line. [None] means that
    a line lies outside the model of [upper]; the loop has then no
    outcome in this model. *)
Fixpoint run_lines (commands : list string) (self : Robot)
    : option (res unit * Robot * list string) :=
  match commands with
  | [] => Some (Return tt, self, [])
  | command :: rest =>
      match Py.upper command with
      | None => None
      | Some command =>
          match try_except (execute_command command) print self with
          | (Return _, self', out) =>
              match run_lines rest self' with
              | Some (b, self'', out') => Some (b, self'', (out ++ out')%list)
              | None => None
              end
          | (Raise e, self', out) => Some (Raise e, self', out)
          end
      end
  end.

(** [run]. [command_file_location] is the line that [input] returns;
    [open_file] gives the text that [read] returns for the files that
    exist, and [None] stands for [FileNotFoundError] (other input/output
    errors are not modelled). The prompt of [input] is written by the
    interpreter and is not among the printed lines. *)
Definition run (open_file : string -> option string)
    (command_file_location : string) (self : Robot)
    : option (res unit * Robot * list string) :=
  match open_file command_file_location with
  | Some content => run_lines (Py.split newline None (Py.strip content)) self
  | None =>
      Some ((print (command_file_location ++ " does not exists. Failed to run.");;
             raise (SystemExit 1)) self)
  end.

(** ** More vocabulary *)

(** The outcomes of a command after which the loop of [run] goes on to the
    next line: the command returned, or it raised the program's own
    exception, which the loop catches and prints. *)
Definition goes_on (o : res unit * Robot * list string) : bool :=
  match result o with
  | Return _ => true
  | Raise (InvalidOperationException _) => true
  | Raise _ => false
  end.

(** The lines on the output when the loop of [run] is through with one
    command: what the command printed, then the message of the program's
    exception when the command raised one. *)
Definition printed (o : res unit * Robot * list string) : list string :=
  (stdout o ++ match result o with
               | Raise (InvalidOperationException message) => [message]
               | _ => []
               end)%list.

(** The same for a list of commands executed one after the other from
    [self], each in the state that the commands before it left. *)
Definition outputs (commands : list string) (self : Robot) : list string :=
  mjoin (imap (fun i command =>
                 printed (execute_command command
                            (execute_all (take i commands) self)))
           commands).

(** The keys of [command_map]. *)
Definition known_actions : list string :=
  ["PLACE"; "LEFT"; "RIGHT"; "MOVE"; "REPORT"; "EXIT"].

(** The number of occurrences of [sep] in [s]. *)
Fixpoint count_char (sep : ascii) (s : string) : nat :=
  match s with
  | EmptyString => O
  | String c s' => (if bool_decide (c = sep) then 1 else 0)%nat + count_char sep s'
  end.

(** No character of the string is [sep]. *)
Definition free_of (sep : ascii) (s : string) : bool :=
  string_forall (fun c => negb (bool_decide (c = sep))) s.

(** The line that [report] prints for the position [(x, y)] and the
    heading [d]. *)
Definition REPORT_line (x y : Z) (d : string) : string :=
  Py.str x ++ ", " ++ Py.str y ++ ", " ++ d.

(** ** Tactics for running the monad *)

Ltac run_M :=
  unfold int_or_raise, should_have_been_placed, no_parameters, assign_direction,
    mbind, M_bind, bind, get, raise, modify, print, mret, M_ret, ret;
  simpl.

Ltac negb_hyps :=
  repeat match goal with
    | H : negb _ = true |- _ => apply negb_true_iff in H
    | H : negb _ = false |- _ => apply negb_false_iff in H
    end.

Ltac by_cases := repeat case_match; simplify_eq/=; negb_hyps; try congruence.

(** * Properties *)

(** ** The string operations on small inputs *)

Example strip_ex : Py.strip "  PLACE 1,2,EAST 	" = "PLACE 1,2,EAST".
Proof. reflexivity. Qed.
Example split_ex1 : Py.split " " (Some 1%nat) "PLACE 1, 2, EAST" = ["PLACE"; "1, 2, EAST"].
Proof. reflexivity. Qed.
Example split_ex2 : Py.split "," None "1,,EAST," = ["1"; ""; "EAST"; ""].
Proof. reflexivity. Qed.
Example split_ex3 : Py.split "," None "" = [""].
Proof. reflexivity. Qed.
Example str_ex : Py.str (-12) = "-12" /\ Py.str 0 = "0" /\ Py.str 305 = "305".
Proof. repeat split; reflexivity. Qed.
Example int_ex :
  Py.int "007" = Some 7 /\ Py.int "+1_000" = Some 1000 /\ Py.int "-0" = Some 0
  /\ Py.int "" = None /\ Py.int "1__0" = None /\ Py.int "_1" = None
  /\ Py.int "1_" = None /\ Py.int "-" = None /\ Py.int "1.5" = None
  /\ Py.int "A" = None /\ Py.int "+-1" = None.
Proof. repeat split; reflexivity. Qed.

(** The digits that count for the interpreter's limit; the numeral of
    [10 ^ 4300], a one followed by 4300 zeros, is the shortest one past
    it. *)
Example count_digits_ex :
  Py.count_digits "007" = 3%nat /\ Py.count_digits "+1_000" = 4%nat
  /\ Py.count_digits "-12" = 2%nat
  /\ (Py.int_max_str_digits
      < Py.count_digits (String "1" (Nat.iter 4300 (String "0") EmptyString)))%nat.
Proof. repeat split; vm_compute; lia. Qed.

(** ** Numerals: [int(str(n)) == n] *)

Lemma long_from_digits_uint u : forall prev acc,
  prev <> "_"%char ->
  Py.long_from_digits prev acc (NilEmpty.string_of_uint u) = Some (uint_value acc u).
Proof.
  induction u; intros prev acc Hprev; simpl;
    try (rewrite IHu by discriminate; reflexivity).
  rewrite bool_decide_eq_false_2 by assumption. reflexivity.
Qed.

Lemma uint_value_pos u : forall acc : positive,
  uint_value (Z.pos acc) u = Z.pos (Pos.of_uint_acc u acc).
Proof.
  induction u; intros acc; simpl; try reflexivity;
    rewrite <- IHu; f_equal; lia.
Qed.

Lemma uint_value_of_uint u : uint_value 0 u = Z.of_N (Pos.of_uint u).
Proof.
  induction u; simpl; try reflexivity; try assumption;
    apply (uint_value_pos u).
Qed.

Lemma int_string_of_uint u :
  u <> Decimal.Nil ->
  Py.int (NilEmpty.string_of_uint u) = Some (Z.of_uint u).
Proof.
  intros Hu. unfold Z.of_uint. rewrite <- uint_value_of_uint.
  destruct u; try congruence;
    match goal with
    | |- Py.int ?s = _ =>
        change (Py.int s) with (Z.mul 1 <$> Py.long_from_digits "0" 0 s)
    end;
    rewrite long_from_digits_uint by discriminate;
    cbn [fmap option_fmap option_map]; f_equal; apply Z.mul_1_l.
Qed.

Lemma int_str n : Py.int (Py.str n) = Some n.
Proof.
  destruct n as [|p|p]; try reflexivity.
  - unfold Py.str. simpl. pose proof (Unsigned.to_uint_nonnil p) as Hnil.
    replace (NilZero.string_of_uint (Pos.to_uint p))
      with (NilEmpty.string_of_uint (Pos.to_uint p))
      by (revert Hnil; destruct (Pos.to_uint p); [congruence | reflexivity ..]).
    rewrite int_string_of_uint by assumption.
    unfold Z.of_uint. rewrite Unsigned.of_to. reflexivity.
  - unfold Py.str. simpl. pose proof (Unsigned.to_uint_nonnil p) as Hnil.
    replace (NilZero.string_of_uint (Pos.to_uint p))
      with (NilEmpty.string_of_uint (Pos.to_uint p))
      by (revert Hnil; destruct (Pos.to_uint p); [congruence | reflexivity ..]).
    pose proof (Unsigned.of_to p) as Hof.
    destruct (Pos.to_uint p) eqn:E; try congruence;
      match goal with
      | |- Py.int (String "-" ?s) = _ =>
          change (Py.int (String "-" s))
            with (Z.mul (-1) <$> Py.long_from_digits "0" 0 s)
      end;
      rewrite long_from_digits_uint by discriminate;
      rewrite uint_value_of_uint, Hof; reflexivity.
Qed.

(** ** Splitting and stripping strings of plain characters *)

Lemma append_assoc (s1 s2 s3 : string) : (s1 ++ s2) ++ s3 = s1 ++ (s2 ++ s3).
Proof.
  induction s1 as [|c s1 IH]; [reflexivity|].
  change (String c ((s1 ++ s2) ++ s3) = String c (s1 ++ (s2 ++ s3))).
  by rewrite IH.
Qed.

Lemma split_no_limit_reached sep s : Py.split sep (Some O) s = [s].
Proof.
  induction s as [|c s IH]; [reflexivity|].
  simpl. rewrite IH, andb_false_r. reflexivity.
Qed.

Lemma split_plain sep m s :
  string_forall (plain_char sep) s = true -> Py.split sep m s = [s].
Proof.
  induction s as [|c s IH]; [reflexivity|]. simpl.
  intros [[Hc _]%andb_true_iff Hs]%andb_true_iff.
  apply negb_true_iff in Hc. rewrite Hc, (IH Hs). reflexivity.
Qed.

Lemma split_app sep m s t :
  string_forall (plain_char sep) s = true -> m <> Some O ->
  Py.split sep m (s ++ String sep t) = s :: Py.split sep (Nat.pred <$> m) t.
Proof.
  intros Hs Hm. induction s as [|c s IH]; simpl.
  - rewrite bool_decide_eq_true_2 by reflexivity.
    rewrite (bool_decide_eq_false_2 _ Hm). reflexivity.
  - simpl in Hs. apply andb_true_iff in Hs as [[Hc _]%andb_true_iff Hs].
    apply negb_true_iff in Hc. rewrite Hc, (IH Hs). reflexivity.
Qed.

Lemma rstrip_plain sep s :
  string_forall (plain_char sep) s = true -> Py.rstrip s = s.
Proof.
  induction s as [|c s IH]; [reflexivity|]. simpl.
  intros [[_ Hc]%andb_true_iff Hs]%andb_true_iff.
  apply negb_true_iff in Hc. rewrite (IH Hs), Hc. destruct s; reflexivity.
Qed.

Lemma strip_plain sep s :
  string_forall (plain_char sep) s = true -> Py.strip s = s.
Proof.
  intros Hs. unfold Py.strip.
  assert (Py.lstrip s = s) as ->; [|by apply (rstrip_plain sep)].
  destruct s as [|c s]; [reflexivity|]. simpl in *.
  apply andb_true_iff in Hs as [[_ Hc]%andb_true_iff _].
  apply negb_true_iff in Hc. by rewrite Hc.
Qed.

Lemma rstrip_app s t :
  Py.rstrip t = t -> t <> EmptyString -> Py.rstrip (s ++ t) = s ++ t.
Proof.
  intros Ht Hne. induction s as [|c s IH]; [exact Ht|].
  change (String c s ++ t) with (String c (s ++ t)).
  cbn [Py.rstrip]. rewrite IH. destruct (s ++ t) eqn:E; [|reflexivity].
  destruct s as [|a s]; [change (t = EmptyString) in E; congruence|].
  change (String a (s ++ t) = EmptyString) in E. discriminate.
Qed.

Lemma string_of_uint_plain u :
  string_forall (plain_char ",") (NilEmpty.string_of_uint u) = true.
Proof. induction u; simpl; try assumption; reflexivity. Qed.

Lemma str_plain n : string_forall (plain_char ",") (Py.str n) = true.
Proof.
  unfold Py.str.
  destruct (Z.to_int n) as [u|u]; simpl; destruct u;
    try reflexivity; apply (string_of_uint_plain (_ u)).
Qed.

Lemma str_nonempty n : Py.str n <> EmptyString.
Proof.
  unfold Py.str. destruct (Z.to_int n) as [u|u]; simpl; [|discriminate].
  destruct u; discriminate.
Qed.

(** ** What [execute_command] hands to the handlers *)

Lemma bind_ret_l {A B} (a : A) (self' : Robot) (m : M A) (k : A -> M B) self :
  m self = (Return a, self', []) -> (m ≫= k) self = k a self'.
Proof.
  intros Hm. unfold mbind, M_bind, bind. rewrite Hm.
  destruct (k a self') as [[b r] out]. reflexivity.
Qed.

Lemma execute_command_unknown command self :
  command_map (action_of command) = None ->
  execute_command command self = (Raise UnknownCommand, self, []).
Proof. intros H. unfold execute_command. rewrite H. reflexivity. Qed.

Lemma execute_command_call command e self :
  command_map (action_of command) = Some e ->
  execute_command command self
  = call (function e) (parameters_of command self) (with_action_details command self).
Proof.
  intros He. unfold execute_command, parameters_of, with_action_details.
  rewrite He. destruct e as [f [ref|]];
    destruct (command_seq command) as [|a [|details l]];
    (erewrite bind_ret_l; [reflexivity|]); reflexivity.
Qed.

Lemma with_action_details_state command self :
  state (with_action_details command self) = state self
  /\ map_size_x (with_action_details command self) = map_size_x self
  /\ map_size_y (with_action_details command self) = map_size_y self.
Proof.
  unfold with_action_details.
  destruct (command_map _) as [[f [[]|]]|];
    destruct (command_seq command) as [|a [|details l]]; repeat split.
Qed.

(** ** The handlers, one equation each *)

Lemma place_unfold kwargs self :
  place kwargs self =
  match kwargs !! "action_details" with
  | None => (Raise MissingArgument, self, [])
  | Some action_details =>
      match Py.strip <$> Py.split "," None action_details with
      | [pos_x; pos_y; d] =>
          match Py.int pos_x, Py.int pos_y with
          | Some x, Some y =>
              if is_valid_pos self (x, y) then
                if is_valid_direction d then
                  (Return tt,
                   set_placed true
                     (set_direction (Some d) (set_pos (Some (x, y)) self)), [])
                else (Raise InvalidHeading, self, [])
              else (Raise (OutOfBounds self), self, [])
          | _, _ => (Raise ValueError, self, [])
          end
      | _ => (Raise (MalformedArgument action_details), self, [])
      end
  end.
Proof. unfold place. run_M. by_cases. Qed.

Lemma move_unfold kwargs self :
  move kwargs self =
  if placed self then
    if bool_decide (kwargs = ∅) then
      match pos self, direction self ≫= (STEP_BY_DIRECTION !!.) with
      | Some (x, y), Some (dx, dy) =>
          if is_valid_pos self (x + dx, y + dy) then
            (Return tt, set_pos (Some (x + dx, y + dy)) self, [])
          else (Raise (UnreachableDestination (x + dx, y + dy)), self, [])
      | _, _ => (Raise TypeError, self, [])
      end
    else (Raise TypeError, self, [])
  else (Raise NotPlaced, self, []).
Proof. unfold move, move_wrapped. run_M. by_cases. Qed.

Lemma turn_unfold kwargs self :
  turn kwargs self =
  if placed self then
    match kwargs !! "direction" with
    | None => (Raise KeyError, self, [])
    | Some turning_direction =>
        match index (direction self) DIRECTIONS with
        | None => (Raise ValueError, self, [])
        | Some i =>
            if bool_decide (turning_direction = "RIGHT") then
              match DIRECTIONS !! Z.to_nat ((i + 1) `mod` 4) with
              | Some d => (Return tt, set_direction (Some d) self, [])
              | None => (Raise IndexError, self, [])
              end
            else if bool_decide (turning_direction = "LEFT") then
              match DIRECTIONS !! Z.to_nat ((i - 1) `mod` 4) with
              | Some d => (Return tt, set_direction (Some d) self, [])
              | None => (Raise IndexError, self, [])
              end
            else (Raise (InvalidTurnDirection turning_direction), self, [])
        end
    end
  else (Raise NotPlaced, self, []).
Proof. unfold turn, turn_wrapped. run_M. by_cases. Qed.

Lemma report_unfold kwargs self :
  report kwargs self =
  if placed self then
    if bool_decide (kwargs = ∅) then
      match pos self with
      | Some (pos_x, pos_y) =>
          (Return tt, self,
           [Py.str pos_x ++ ", " ++ Py.str pos_y ++ ", "
            ++ str_direction (direction self)])
      | None => (Raise TypeError, self, [])
      end
    else (Raise TypeError, self, [])
  else (Raise NotPlaced, self, []).
Proof. unfold report, report_wrapped. run_M. by_cases. Qed.

Lemma terminate_unfold kwargs self :
  terminate kwargs self =
  if bool_decide (kwargs = ∅) then
    (Raise (SystemExit 0), self, ["End of service."])
  else (Raise TypeError, self, []).
Proof. unfold terminate. run_M. by_cases. Qed.

(** ** Reading a PLACE command line *)

Lemma split_app_sep sep m s t :
  string_forall (plain_char sep) s = true -> m <> Some O ->
  Py.split sep m (s ++ String sep EmptyString ++ t)
  = s :: Py.split sep (Nat.pred <$> m) t.
Proof. exact (split_app sep m s t). Qed.

Lemma rstrip_app_fixed s t :
  Py.rstrip t = t /\ t <> EmptyString ->
  Py.rstrip (s ++ t) = s ++ t /\ s ++ t <> EmptyString.
Proof.
  intros [Ht Hne]. split; [by apply rstrip_app|].
  destruct s as [|a s]; [exact Hne|].
  change (String a s ++ t) with (String a (s ++ t)). discriminate.
Qed.

Lemma PLACE_details_rstrip x y d :
  string_forall (plain_char ",") d = true -> d <> EmptyString ->
  Py.rstrip (PLACE_details x y d) = PLACE_details x y d
  /\ PLACE_details x y d <> EmptyString.
Proof.
  intros Hd Hne. unfold PLACE_details.
  repeat apply rstrip_app_fixed. split; [by apply (rstrip_plain ",")|done].
Qed.

Lemma location_details_PLACE x y d :
  string_forall (plain_char ",") d = true ->
  Py.strip <$> Py.split "," None (PLACE_details x y d) = [Py.str x; Py.str y; d].
Proof.
  intros Hd. unfold PLACE_details.
  rewrite !split_app_sep by (done || apply str_plain).
  rewrite (split_plain _ _ _ Hd). cbn [fmap list_fmap option_fmap option_map].
  rewrite !(strip_plain ",") by (done || apply str_plain). reflexivity.
Qed.

Lemma command_seq_PLACE x y d :
  string_forall (plain_char ",") d = true -> d <> EmptyString ->
  command_seq (PLACE_command x y d) = ["PLACE"; PLACE_details x y d].
Proof.
  intros Hd Hne. destruct (PLACE_details_rstrip x y d Hd Hne) as [Hr Hn].
  unfold command_seq, PLACE_command, Py.strip.
  change (Py.lstrip ("PLACE " ++ PLACE_details x y d))
    with ("PLACE" ++ String " " (PLACE_details x y d)).
  rewrite rstrip_app.
  - rewrite split_app by done. cbn [fmap option_fmap option_map Nat.pred].
    by rewrite split_no_limit_reached.
  - cbn [Py.rstrip]. rewrite Hr. by destruct (PLACE_details x y d).
  - discriminate.
Qed.

Lemma place_PLACE_details self x y d :
  string_forall (plain_char ",") d = true ->
  place {[ "action_details" := PLACE_details x y d ]} self =
  if is_valid_pos self (x, y) then
    if is_valid_direction d then
      (Return tt,
       set_placed true (set_direction (Some d) (set_pos (Some (x, y)) self)), [])
    else (Raise InvalidHeading, self, [])
  else (Raise (OutOfBounds self), self, []).
Proof.
  intros Hd. rewrite place_unfold, lookup_singleton_eq.
  rewrite (location_details_PLACE x y d Hd), !int_str. reflexivity.
Qed.

Lemma execute_command_PLACE self x y d :
  string_forall (plain_char ",") d = true -> d <> EmptyString ->
  execute_command (PLACE_command x y d) self
  = place {[ "action_details" := PLACE_details x y d ]} self.
Proof.
  intros Hd Hne.
  rewrite (execute_command_call _ (mkExecutor m_place None));
    unfold action_of, parameters_of, with_action_details, action_of;
    rewrite (command_seq_PLACE x y d Hd Hne); reflexivity.
Qed.

Lemma DIRECTIONS_plain d :
  d ∈ DIRECTIONS -> string_forall (plain_char ",") d = true /\ d <> EmptyString.
Proof.
  unfold DIRECTIONS. rewrite !elem_of_cons, elem_of_nil.
  intros [->|[->|[->|[->|[]]]]]; done.
Qed.

(** ** The effect of a command on the robot *)

Lemma call_effect f kwargs self : effect f self (robot (call f kwargs self)).
Proof.
  destruct f; cbn [call].
  - rewrite place_unfold. by_cases; try apply effect_none.
    by apply effect_place.
  - rewrite turn_unfold. by_cases; try apply effect_none;
      (apply effect_turn; [done|]);
      apply bool_decide_eq_true; by eapply list_elem_of_lookup_2.
  - rewrite move_unfold. by_cases; try apply effect_none.
    by apply effect_move.
  - rewrite report_unfold. by_cases; apply effect_none.
  - rewrite terminate_unfold. by_cases; apply effect_none.
Qed.

Lemma effect_invariant f self self' :
  effect f self self' -> invariant self = true -> invariant self' = true.
Proof.
  unfold invariant.
  destruct 1 as [f self|self x y d Hp Hd|self p Hpl Hp|self d Hpl Hd];
    unfold is_valid_pos in *; cbn in *.
  - done.
  - intros _. by rewrite Hp, Hd.
  - rewrite Hpl. destruct (pos self), (direction self); try done.
    intros [_ Hd]%andb_true_iff. by rewrite Hp, Hd.
  - rewrite Hpl. destruct (pos self), (direction self); try done.
    intros [Hp _]%andb_true_iff. by rewrite Hp, Hd.
Qed.

Lemma effect_placed f self self' :
  effect f self self' -> placed self = true -> placed self' = true.
Proof. by destruct 1. Qed.

Lemma effect_places f self self' :
  effect f self self' -> placed self = false -> placed self' = true ->
  f = m_place.
Proof. destruct 1; cbn; congruence. Qed.

Lemma command_map_cases action e :
  command_map action = Some e ->
  (action = "PLACE" /\ e = mkExecutor m_place None)
  \/ (action = "LEFT" /\ e = mkExecutor m_turn (Some LEFT_ref))
  \/ (action = "RIGHT" /\ e = mkExecutor m_turn (Some RIGHT_ref))
  \/ (action = "MOVE" /\ e = mkExecutor m_move None)
  \/ (action = "REPORT" /\ e = mkExecutor m_report None)
  \/ (action = "EXIT" /\ e = mkExecutor m_terminate None).
Proof. unfold command_map. repeat case_bool_decide; naive_solver. Qed.

Lemma with_action_details_invariant command self :
  invariant (with_action_details command self) = invariant self
  /\ placed (with_action_details command self) = placed self.
Proof.
  unfold with_action_details.
  destruct (command_map _) as [[f [[]|]]|];
    destruct (command_seq command) as [|a [|details l]]; done.
Qed.

(** Every command acts on the robot as one [effect] of its handler, after
    the text behind the keyword has been stored. *)
Lemma execute_command_effect command self :
  robot (execute_command command self) = with_action_details command self
  \/ exists e,
       command_map (action_of command) = Some e
       /\ effect (function e) (with_action_details command self)
            (robot (execute_command command self)).
Proof.
  destruct (command_map (action_of command)) as [e|] eqn:He.
  - right. exists e. split; [done|].
    rewrite (execute_command_call _ _ _ He). apply call_effect.
  - left. rewrite (execute_command_unknown _ _ He).
    unfold with_action_details. by rewrite He.
Qed.

Lemma execute_command_invariant command self :
  invariant self = true -> invariant (robot (execute_command command self)) = true.
Proof.
  intros Hinv.
  destruct (with_action_details_invariant command self) as [Hi _].
  destruct (execute_command_effect command self) as [->|(e & _ & Heff)].
  - by rewrite Hi.
  - eapply effect_invariant; [done|]. by rewrite Hi.
Qed.

Lemma execute_command_placed command self :
  placed self = true -> placed (robot (execute_command command self)) = true.
Proof.
  intros Hpl.
  destruct (with_action_details_invariant command self) as [_ Hp].
  destruct (execute_command_effect command self) as [->|(e & _ & Heff)].
  - by rewrite Hp.
  - eapply effect_placed; [done|]. by rewrite Hp.
Qed.

Lemma execute_command_places command self :
  placed self = false -> placed (robot (execute_command command self)) = true ->
  action_of command = "PLACE".
Proof.
  intros Hpl Hpl'.
  destruct (with_action_details_invariant command self) as [_ Hp].
  destruct (execute_command_effect command self) as [Heq|(e & He & Heff)].
  - rewrite Heq in Hpl'. congruence.
  - apply effect_places in Heff; [| by rewrite Hp | done].
    apply command_map_cases in He.
    destruct He as [[Ha _]|[[_ ->]|[[_ ->]|[[_ ->]|[[_ ->]|[_ ->]]]]]];
      [exact Ha | discriminate Heff ..].
Qed.

Lemma execute_all_snoc commands command self :
  execute_all (commands ++ [command])%list self
  = robot (execute_command command (execute_all commands self)).
Proof. unfold execute_all. by rewrite foldl_app. Qed.

Lemma execute_all_invariant commands self :
  invariant self = true -> invariant (execute_all commands self) = true.
Proof.
  intros Hinv. induction commands as [|command commands IH] using rev_ind.
  - done.
  - rewrite execute_all_snoc. by apply execute_command_invariant.
Qed.

Lemma execute_all_placed commands self :
  placed self = true -> placed (execute_all commands self) = true.
Proof.
  intros Hpl. induction commands as [|command commands IH] using rev_ind.
  - done.
  - rewrite execute_all_snoc. by apply execute_command_placed.
Qed.

Lemma effect_map_size f self self' :
  effect f self self' ->
  map_size_x self' = map_size_x self /\ map_size_y self' = map_size_y self.
Proof. by destruct 1. Qed.

Lemma execute_command_map_size command self :
  map_size_x (robot (execute_command command self)) = map_size_x self
  /\ map_size_y (robot (execute_command command self)) = map_size_y self.
Proof.
  destruct (with_action_details_state command self) as (_ & Hx & Hy).
  destruct (execute_command_effect command self) as [->|(e & _ & Heff)].
  - done.
  - apply effect_map_size in Heff as [-> ->]. done.
Qed.

Lemma execute_all_map_size commands self :
  map_size_x (execute_all commands self) = map_size_x self
  /\ map_size_y (execute_all commands self) = map_size_y self.
Proof.
  induction commands as [|command commands [IHx IHy]] using rev_ind.
  - done.
  - rewrite execute_all_snoc.
    destruct (execute_command_map_size command (execute_all commands self))
      as [-> ->]. done.
Qed.

(** ** The loop of [run] is a special case of [execute_all] *)

Lemma run_commands_robot commands : forall self,
  exists executed,
    executed `prefix_of` commands
    /\ robot (run_commands commands self) = execute_all executed self.
Proof.
  induction commands as [|command commands IH]; intros self.
  - by exists [].
  - destruct (IH (robot (execute_command command self))) as (executed & Hpre & Hrun).
    cbn [run_commands]. unfold mbind, M_bind, bind, try_except, print.
    destruct (execute_command command self) as [[[[]|e] self'] out] eqn:Hexec;
      cbn [robot fst snd] in *.
    + exists (command :: executed). split; [by apply prefix_cons|].
      destruct (run_commands commands self') as [[b r] out']. cbn in *.
      rewrite Hrun. unfold execute_all. cbn [foldl]. by rewrite Hexec.
    + destruct e as [message| | | | |code];
        try (exists [command]; split;
             [apply prefix_cons, prefix_nil
             |unfold execute_all; cbn [foldl]; by rewrite Hexec]).
      exists (command :: executed). split; [by apply prefix_cons|].
      destruct (run_commands commands self') as [[b r] out']. cbn in *.
      rewrite Hrun. unfold execute_all. cbn [foldl]. by rewrite Hexec.
Qed.

(** ** The commands without argument reach their handlers *)

Lemma execute_command_REPORT self :
  execute_command "REPORT" self = report ∅ self.
Proof. exact (execute_command_call "REPORT" (mkExecutor m_report None) self eq_refl). Qed.

Lemma execute_command_MOVE self :
  execute_command "MOVE" self = move ∅ self.
Proof. exact (execute_command_call "MOVE" (mkExecutor m_move None) self eq_refl). Qed.

Lemma execute_command_EXIT self :
  execute_command "EXIT" self = terminate ∅ self.
Proof. exact (execute_command_call "EXIT" (mkExecutor m_terminate None) self eq_refl). Qed.

Lemma execute_command_LEFT self :
  execute_command "LEFT" self = turn (LEFT_parameters self) self.
Proof. exact (execute_command_call "LEFT" (mkExecutor m_turn (Some LEFT_ref)) self eq_refl). Qed.

Lemma execute_command_RIGHT self :
  execute_command "RIGHT" self = turn (RIGHT_parameters self) self.
Proof. exact (execute_command_call "RIGHT" (mkExecutor m_turn (Some RIGHT_ref)) self eq_refl). Qed.

(** ** C1: PLACE then REPORT *)

Lemma in_range_spec x n : in_range x n = true <-> 0 <= x < n.
Proof. unfold in_range. rewrite andb_true_iff, Z.leb_le, Z.ltb_lt. done. Qed.

Lemma is_valid_pos_spec self x y :
  is_valid_pos self (x, y) = true
  <-> 0 <= x < map_size_x self /\ 0 <= y < map_size_y self.
Proof. unfold is_valid_pos. cbn. by rewrite andb_true_iff, !in_range_spec. Qed.

(** C1: for every position [(x, y)] on the map of the robot (5 by 5 for a
    robot built with the default size) and each of the four headings,
    the command line [PLACE x,y,HEADING] succeeds and prints nothing, and
    a following [REPORT] prints exactly [x, y, HEADING] and leaves the robot
    as it is. *)
Theorem C1_place_then_report (self : Robot) (x y : Z) (d : string) :
  0 <= x < map_size_x self -> 0 <= y < map_size_y self ->
  is_valid_direction d = true ->
  let placed_robot :=
    set_placed true (set_direction (Some d) (set_pos (Some (x, y)) self)) in
  execute_command (PLACE_command x y d) self = (Return tt, placed_robot, [])
  /\ execute_command "REPORT" placed_robot
     = (Return tt, placed_robot, [Py.str x ++ ", " ++ Py.str y ++ ", " ++ d])
  /\ stdout (run_commands [PLACE_command x y d; "REPORT"] self)
     = [Py.str x ++ ", " ++ Py.str y ++ ", " ++ d].
Proof.
  intros Hx Hy Hd placed_robot.
  assert (is_valid_pos self (x, y) = true) as Hp by by apply is_valid_pos_spec.
  destruct (DIRECTIONS_plain d) as [Hplain Hne];
    [by apply (bool_decide_eq_true (d ∈ DIRECTIONS))|].
  assert (execute_command (PLACE_command x y d) self = (Return tt, placed_robot, []))
    as HPLACE.
  { rewrite execute_command_PLACE, place_PLACE_details by done.
    by rewrite Hp, Hd. }
  assert (execute_command "REPORT" placed_robot
          = (Return tt, placed_robot, [Py.str x ++ ", " ++ Py.str y ++ ", " ++ d]))
    as HREPORT.
  { rewrite execute_command_REPORT, report_unfold. reflexivity. }
  repeat split; [done..|].
  cbn [run_commands]. unfold try_except, mbind, M_bind, bind, stdout.
  rewrite HPLACE, HREPORT. reflexivity.
Qed.

Lemma C1_witness :
  (0 <= 4 < map_size_x (__init__ MAP_SIZE)
   /\ 0 <= 0 < map_size_y (__init__ MAP_SIZE)
   /\ is_valid_direction "WEST" = true)
  /\ stdout (run_commands [PLACE_command 4 0 "WEST"; "REPORT"] (__init__ MAP_SIZE))
     = ["4, 0, WEST"].
Proof.
  split.
  - repeat split; (reflexivity || (cbn; lia)).
  - apply (C1_place_then_report (__init__ MAP_SIZE) 4 0 "WEST");
      (reflexivity || (cbn; lia)).
Defined.

(** ** C2: the state invariant *)

Lemma invariant_spec self :
  invariant self = true ->
  (placed self = true <-> is_Some (pos self) /\ is_Some (direction self))
  /\ (placed self = false -> pos self = None /\ direction self = None)
  /\ (placed self = true ->
      exists p d, pos self = Some p /\ is_valid_pos self p = true
                  /\ direction self = Some d /\ d ∈ DIRECTIONS).
Proof.
  unfold invariant.
  destruct (placed self), (pos self) as [p|], (direction self) as [d|];
    try discriminate; intros H.
  - apply andb_true_iff in H as [Hp Hd].
    apply (bool_decide_eq_true (d ∈ DIRECTIONS)) in Hd.
    repeat split; eauto 10; discriminate.
  - repeat split; try discriminate; intros [[? ?] _]; discriminate.
Qed.

(** C2: in every state that commands can reach from a new robot, position
    and heading are both defined exactly when [placed] is true (and both
    undefined otherwise); a placed robot stands on the map and has one of
    the four headings; a command that turns [placed] from false to true
    has the keyword PLACE; and once [placed] is true it stays true under
    every further sequence of commands. *)
Theorem C2_invariant_from_initial_state (map_size : Z * Z) (commands : list string) :
  let self := execute_all commands (__init__ map_size) in
  invariant self = true
  /\ (placed self = true <-> is_Some (pos self) /\ is_Some (direction self))
  /\ (placed self = false -> pos self = None /\ direction self = None)
  /\ (placed self = true ->
      exists x y d,
        pos self = Some (x, y) /\ 0 <= x < map_size.1 /\ 0 <= y < map_size.2
        /\ direction self = Some d /\ d ∈ DIRECTIONS)
  /\ (forall command,
        placed self = false ->
        placed (robot (execute_command command self)) = true ->
        action_of command = "PLACE")
  /\ (forall more, placed self = true -> placed (execute_all more self) = true).
Proof.
  intros self.
  assert (invariant self = true) as Hinv by by apply execute_all_invariant.
  destruct (invariant_spec self Hinv) as (Hiff & Hun & Hpl).
  destruct (execute_all_map_size commands (__init__ map_size)) as [Hx Hy].
  split; [exact Hinv|]. split; [exact Hiff|]. split; [exact Hun|].
  split; [|split].
  - intros Hplaced. destruct (Hpl Hplaced) as ([x y] & d & Hp & Hv & Hd & Hin).
    exists x, y, d. apply is_valid_pos_spec in Hv. fold self in Hx, Hy.
    rewrite Hx, Hy in Hv. cbn in Hv. tauto.
  - intros command. apply execute_command_places.
  - intros more. apply execute_all_placed.
Qed.

Lemma C2_witness :
  placed (execute_all ["PLACE 1,2,EAST"; "MOVE"] (__init__ MAP_SIZE)) = true
  /\ exists x y d,
       pos (execute_all ["PLACE 1,2,EAST"; "MOVE"] (__init__ MAP_SIZE)) = Some (x, y)
       /\ 0 <= x < MAP_SIZE.1 /\ 0 <= y < MAP_SIZE.2
       /\ direction (execute_all ["PLACE 1,2,EAST"; "MOVE"] (__init__ MAP_SIZE))
          = Some d
       /\ d ∈ DIRECTIONS.
Proof.
  split; [reflexivity|].
  apply (C2_invariant_from_initial_state MAP_SIZE ["PLACE 1,2,EAST"; "MOVE"]).
  reflexivity.
Defined.

(** ** C3: MOVE *)

Lemma STEP_BY_DIRECTION_lookup d :
  d ∈ DIRECTIONS -> is_Some (STEP_BY_DIRECTION !! d).
Proof.
  unfold DIRECTIONS. rewrite !elem_of_cons, elem_of_nil.
  intros [->|[->|[->|[->|[]]]]]; eexists; reflexivity.
Qed.

(** C3: the step table gives NORTH (0,+1), SOUTH (0,-1), EAST (+1,0) and
    WEST (-1,0); for a placed robot at [(x, y)] with one of the four
    headings, MOVE adds the step of the heading: when the candidate is on
    the map it becomes the position (nothing else changes), otherwise
    MOVE raises the unreachable-destination error, whose message carries
    the two candidate coordinates, and the robot is unchanged. *)
Theorem C3_move (self : Robot) (x y : Z) (d : string) :
  placed self = true -> pos self = Some (x, y) -> direction self = Some d ->
  is_valid_direction d = true ->
  (STEP_BY_DIRECTION !! "NORTH" = Some (0, 1)
   /\ STEP_BY_DIRECTION !! "SOUTH" = Some (0, -1)
   /\ STEP_BY_DIRECTION !! "EAST" = Some (1, 0)
   /\ STEP_BY_DIRECTION !! "WEST" = Some (-1, 0))
  /\ exists dx dy,
       STEP_BY_DIRECTION !! d = Some (dx, dy)
       /\ execute_command "MOVE" self = move ∅ self
       /\ move ∅ self =
          if is_valid_pos self (x + dx, y + dy) then
            (Return tt, set_pos (Some (x + dx, y + dy)) self, [])
          else
            (Raise (InvalidOperationException
                      ("Destination (" ++ Py.str (x + dx) ++ ", "
                       ++ Py.str (y + dy) ++ ") cannot be reached.")),
             self, []).
Proof.
  intros Hpl Hpos Hdir Hd. split; [done|].
  apply (bool_decide_eq_true (d ∈ DIRECTIONS)) in Hd.
  destruct (STEP_BY_DIRECTION_lookup d Hd) as [[dx dy] Hstep].
  exists dx, dy. split; [done|]. split; [apply execute_command_MOVE|].
  rewrite move_unfold, Hpl, Hpos, Hdir. cbn. rewrite Hstep.
  rewrite bool_decide_eq_true_2 by done.
  unfold UnreachableDestination, str_pair. cbn [fst snd].
  change ("(" ++ Py.str (x + dx) ++ ", " ++ Py.str (y + dy) ++ ")")
    with (("(" ++ Py.str (x + dx)) ++ ", " ++ Py.str (y + dy) ++ ")").
  rewrite !append_assoc. reflexivity.
Qed.

Lemma C3_witness :
  move ∅ (mkRobot true 5 5 (Some (0, 4)) (Some "NORTH") ∅ ∅)
  = (Raise (InvalidOperationException "Destination (0, 5) cannot be reached."),
     mkRobot true 5 5 (Some (0, 4)) (Some "NORTH") ∅ ∅, [])
  /\ move ∅ (mkRobot true 5 5 (Some (2, 2)) (Some "WEST") ∅ ∅)
     = (Return tt, mkRobot true 5 5 (Some (1, 2)) (Some "WEST") ∅ ∅, []).
Proof.
  split.
  - destruct (C3_move (mkRobot true 5 5 (Some (0, 4)) (Some "NORTH") ∅ ∅)
                0 4 "NORTH" eq_refl eq_refl eq_refl eq_refl)
      as (_ & dx & dy & Hstep & _ & Hmove).
    injection Hstep as <- <-. exact Hmove.
  - destruct (C3_move (mkRobot true 5 5 (Some (2, 2)) (Some "WEST") ∅ ∅)
                2 2 "WEST" eq_refl eq_refl eq_refl eq_refl)
      as (_ & dx & dy & Hstep & _ & Hmove).
    injection Hstep as <- <-. exact Hmove.
Defined.

(** ** C4: PLACE changes all of the state or none of it *)




(** ** C5: commands before the first PLACE *)

Lemma check_placed_first_decorated :
  check_placed_first [m_move; m_turn; m_report].
Proof.
  intros f kwargs self Hf Hpl.
  rewrite !elem_of_cons, elem_of_nil in Hf.
  destruct Hf as [->|[->|[->|[]]]]; cbn [call];
    [rewrite move_unfold | rewrite turn_unfold | rewrite report_unfold];
    by rewrite Hpl.
Qed.

(** C5 (as amended): MOVE, LEFT, RIGHT and REPORT first check that the
    robot has been placed: on an unplaced robot their handlers raise the
    not-placed error, print nothing and leave the robot as it is, and so
    does every command line with one of these keywords as far as
    [placed], position and heading go. EXIT makes no such check: on any
    robot it prints [End of service.] and raises [SystemExit]. *)
Theorem C5_not_placed (self : Robot) :
  check_placed_first [m_move; m_turn; m_report]
  /\ (placed self = false ->
      forall command,
        action_of command ∈ ["MOVE"; "LEFT"; "RIGHT"; "REPORT"] ->
        result (execute_command command self) = Raise NotPlaced
        /\ state (robot (execute_command command self)) = state self
        /\ stdout (execute_command command self) = [])
  /\ execute_command "EXIT" self
     = (Raise (SystemExit 0), self, ["End of service."]).
Proof.
  split; [exact check_placed_first_decorated|]. split.
  - intros Hpl command Ha.
    destruct (with_action_details_state command self) as (Hst & _ & _).
    destruct (with_action_details_invariant command self) as [_ Hp].
    assert (exists f ref,
              command_map (action_of command) = Some (mkExecutor f ref)
              /\ f ∈ [m_move; m_turn; m_report]) as (f & ref & He & Hf).
    { rewrite !elem_of_cons, elem_of_nil in Ha.
      destruct Ha as [->|[->|[->|[->|[]]]]]; do 2 eexists;
        (split; [reflexivity|]); rewrite !elem_of_cons; tauto. }
    rewrite (execute_command_call _ _ _ He). cbn [function].
    rewrite (check_placed_first_decorated f _ _ Hf) by (by rewrite Hp).
    done.
  - rewrite execute_command_EXIT, terminate_unfold.
    by rewrite bool_decide_eq_true_2.
Qed.

Lemma C5_witness :
  placed (__init__ MAP_SIZE) = false
  /\ result (execute_command "LEFT NOW" (__init__ MAP_SIZE)) = Raise NotPlaced
  /\ state (robot (execute_command "LEFT NOW" (__init__ MAP_SIZE)))
     = state (__init__ MAP_SIZE).
Proof.
  split; [reflexivity|].
  destruct (proj1 (proj2 (C5_not_placed (__init__ MAP_SIZE))) eq_refl "LEFT NOW")
    as (Hres & Hst & _).
  - rewrite !elem_of_cons. right. left. reflexivity.
  - split; [exact Hres | exact Hst].
Defined.

(** C5 with EXIT among the checked handlers does not hold: on a new robot
    EXIT ends the session instead of raising the not-placed error. *)
Lemma C5_counterexample_exit :
  placed (__init__ MAP_SIZE) = false
  /\ call m_terminate ∅ (__init__ MAP_SIZE)
     = (Raise (SystemExit 0), __init__ MAP_SIZE, ["End of service."])
  /\ execute_command "EXIT" (__init__ MAP_SIZE)
     = (Raise (SystemExit 0), __init__ MAP_SIZE, ["End of service."])
  /\ ~ check_placed_first [m_move; m_turn; m_report; m_terminate].
Proof.
  split; [reflexivity|]. split; [reflexivity|]. split; [reflexivity|].
  intros H. specialize (H m_terminate ∅ (__init__ MAP_SIZE)).
  rewrite !elem_of_cons in H.
  discriminate H; [tauto | reflexivity].
Qed.

(** ** C6: turning *)

Lemma index_cases d i :
  index d DIRECTIONS = Some i ->
  (i = 0 /\ d = Some "NORTH") \/ (i = 1 /\ d = Some "EAST")
  \/ (i = 2 /\ d = Some "SOUTH") \/ (i = 3 /\ d = Some "WEST").
Proof.
  unfold DIRECTIONS. cbn [index].
  repeat case_bool_decide; cbn; intros [= <-]; tauto.
Qed.

Lemma turn_kwargs kwargs kwargs' self :
  kwargs !! "direction" = kwargs' !! "direction" ->
  turn kwargs self = turn kwargs' self.
Proof. intros H. rewrite !turn_unfold. by rewrite H. Qed.

Lemma turn_step kwargs self i (step : Z) :
  placed self = true -> index (direction self) DIRECTIONS = Some i ->
  (kwargs !! "direction" = Some "RIGHT" /\ step = 1
   \/ kwargs !! "direction" = Some "LEFT" /\ step = -1) ->
  exists d,
    DIRECTIONS !! Z.to_nat ((i + step) `mod` 4) = Some d
    /\ index (Some d) DIRECTIONS = Some ((i + step) `mod` 4)
    /\ turn kwargs self = (Return tt, set_direction (Some d) self, []).
Proof.
  intros Hpl Hi Hk. rewrite turn_unfold, Hpl, Hi.
  apply index_cases in Hi.
  destruct Hk as [[-> ->]|[-> ->]];
    destruct Hi as [[-> _]|[[-> _]|[[-> _]|[-> _]]]];
    eexists; (split; [reflexivity|]); split; reflexivity.
Qed.

Lemma set_direction_twice d d' self :
  set_direction d (set_direction d' self) = set_direction d self.
Proof. reflexivity. Qed.

Lemma set_direction_same self : set_direction (direction self) self = self.
Proof. by destruct self. Qed.

Lemma four_turns kwargs self i step :
  placed self = true -> index (direction self) DIRECTIONS = Some i ->
  (kwargs !! "direction" = Some "RIGHT" /\ step = 1
   \/ kwargs !! "direction" = Some "LEFT" /\ step = -1) ->
  Nat.iter 4 (fun r => robot (turn kwargs r)) self = self.
Proof.
  intros Hpl Hi Hk.
  destruct (turn_step kwargs self i step Hpl Hi Hk) as (d1 & _ & Hi1 & H1).
  destruct (turn_step kwargs (set_direction (Some d1) self) _ step Hpl Hi1 Hk)
    as (d2 & _ & Hi2 & H2).
  destruct (turn_step kwargs (set_direction (Some d2) self) _ step Hpl Hi2 Hk)
    as (d3 & _ & Hi3 & H3).
  destruct (turn_step kwargs (set_direction (Some d3) self) _ step Hpl Hi3 Hk)
    as (d4 & _ & Hi4 & H4).
  unfold Nat.iter. cbn [nat_rect]. rewrite H1. cbn [robot fst snd].
  rewrite H2. cbn [robot fst snd]. rewrite set_direction_twice.
  rewrite H3. cbn [robot fst snd]. rewrite set_direction_twice.
  rewrite H4. cbn [robot fst snd]. rewrite set_direction_twice.
  assert (Some d4 = direction self) as ->; [|apply set_direction_same].
  assert (step = 1 \/ step = -1) as Hstep by tauto.
  apply index_cases in Hi. apply index_cases in Hi4.
  destruct Hstep as [-> | ->];
    destruct Hi as [[-> ->]|[[-> ->]|[[-> ->]|[-> ->]]]];
    destruct Hi4 as [[? ->]|[[? ->]|[[? ->]|[? ->]]]]; done.
Qed.

Lemma parameters_intact_spec self :
  parameters_intact self = true <->
  LEFT_parameters self !! "direction" = Some "LEFT"
  /\ RIGHT_parameters self !! "direction" = Some "RIGHT".
Proof.
  unfold parameters_intact. by rewrite andb_true_iff, !bool_decide_eq_true.
Qed.

Lemma turn_parameters kwargs self :
  LEFT_parameters (robot (turn kwargs self)) = LEFT_parameters self
  /\ RIGHT_parameters (robot (turn kwargs self)) = RIGHT_parameters self.
Proof. rewrite turn_unfold. unfold robot. by_cases; done. Qed.

Lemma four_RIGHT self i :
  placed self = true -> index (direction self) DIRECTIONS = Some i ->
  parameters_intact self = true ->
  execute_all ["RIGHT"; "RIGHT"; "RIGHT"; "RIGHT"] self = self.
Proof.
  intros Hpl Hi [_ Hk]%parameters_intact_spec.
  unfold execute_all. cbn [foldl]. rewrite !execute_command_RIGHT.
  rewrite !(proj2 (turn_parameters _ _)).
  apply (four_turns (RIGHT_parameters self) self i 1); auto.
Qed.

Lemma four_LEFT self i :
  placed self = true -> index (direction self) DIRECTIONS = Some i ->
  parameters_intact self = true ->
  execute_all ["LEFT"; "LEFT"; "LEFT"; "LEFT"] self = self.
Proof.
  intros Hpl Hi [Hk _]%parameters_intact_spec.
  unfold execute_all. cbn [foldl]. rewrite !execute_command_LEFT.
  rewrite !(proj1 (turn_parameters _ _)).
  apply (four_turns (LEFT_parameters self) self i (-1)); auto.
Qed.

Lemma execute_command_parameters_intact command self :
  parameters_intact self = true ->
  parameters_intact (robot (execute_command command self)) = true.
Proof.
  intros Hk.
  assert (parameters_intact (with_action_details command self) = true) as Hk'.
  { apply parameters_intact_spec in Hk as [Hl Hr].
    apply parameters_intact_spec. unfold with_action_details.
    destruct (command_map _) as [[f [[]|]]|];
      destruct (command_seq command) as [|a [|details l]]; cbn;
      rewrite ?lookup_insert_ne by done; done. }
  destruct (execute_command_effect command self) as [->|(e & _ & Heff)];
    [done|].
  revert Hk'. by destruct Heff.
Qed.

Lemma execute_all_parameters_intact commands map_size :
  parameters_intact (execute_all commands (__init__ map_size)) = true.
Proof.
  induction commands as [|command commands IH] using rev_ind.
  - reflexivity.
  - rewrite execute_all_snoc. by apply execute_command_parameters_intact.
Qed.

(** C6: for a placed robot whose heading stands at index [i] of
    (NORTH, EAST, SOUTH, WEST), RIGHT sets the heading found at index
    [(i + 1) mod 4] and LEFT the one at index [(i - 1) mod 4]: that is the
    heading of the robot after the command, and nothing else changes; so
    RIGHT leads from NORTH to EAST to SOUTH to WEST and back to NORTH, and
    LEFT the other way round; four RIGHT commands in a row, or four LEFT
    commands in a row, give back the robot they started from. *)
Theorem C6_turn (self : Robot) (i : Z) :
  placed self = true -> index (direction self) DIRECTIONS = Some i ->
  parameters_intact self = true ->
  (exists d,
     DIRECTIONS !! Z.to_nat ((i + 1) `mod` 4) = Some d
     /\ index (Some d) DIRECTIONS = Some ((i + 1) `mod` 4)
     /\ execute_command "RIGHT" self = (Return tt, set_direction (Some d) self, [])
     /\ turn {[ "direction" := "RIGHT" ]} self
        = (Return tt, set_direction (Some d) self, [])
     /\ direction (robot (execute_command "RIGHT" self)) = Some d
     /\ robot (execute_command "RIGHT" self)
        = mkRobot true (map_size_x self) (map_size_y self) (pos self) (Some d)
            (LEFT_parameters self) (RIGHT_parameters self))
  /\ (exists d,
        DIRECTIONS !! Z.to_nat ((i - 1) `mod` 4) = Some d
        /\ index (Some d) DIRECTIONS = Some ((i - 1) `mod` 4)
        /\ execute_command "LEFT" self = (Return tt, set_direction (Some d) self, [])
        /\ turn {[ "direction" := "LEFT" ]} self
           = (Return tt, set_direction (Some d) self, [])
        /\ direction (robot (execute_command "LEFT" self)) = Some d
        /\ robot (execute_command "LEFT" self)
           = mkRobot true (map_size_x self) (map_size_y self) (pos self) (Some d)
               (LEFT_parameters self) (RIGHT_parameters self))
  /\ (forall d d',
        (d, d') ∈ [("NORTH", "EAST"); ("EAST", "SOUTH"); ("SOUTH", "WEST");
                   ("WEST", "NORTH")] ->
        (direction self = Some d ->
         direction (robot (execute_command "RIGHT" self)) = Some d')
        /\ (direction self = Some d' ->
            direction (robot (execute_command "LEFT" self)) = Some d))
  /\ execute_all ["RIGHT"; "RIGHT"; "RIGHT"; "RIGHT"] self = self
  /\ execute_all ["LEFT"; "LEFT"; "LEFT"; "LEFT"] self = self.
Proof.
  intros Hpl Hi Hk. pose proof Hk as [Hl Hr]%parameters_intact_spec.
  destruct (turn_step (RIGHT_parameters self) self i 1 Hpl Hi)
    as (dr & Hdr & Hir & Htr); [auto|].
  destruct (turn_step (LEFT_parameters self) self i (-1) Hpl Hi)
    as (dl & Hdl & Hil & Htl); [auto|].
  assert (execute_command "RIGHT" self
          = (Return tt, set_direction (Some dr) self, [])) as HR
    by (by rewrite execute_command_RIGHT).
  assert (execute_command "LEFT" self
          = (Return tt, set_direction (Some dl) self, [])) as HL
    by (by rewrite execute_command_LEFT).
  split; [|split; [|split; [|split]]].
  - exists dr. rewrite HR.
    rewrite (turn_kwargs {[ "direction" := "RIGHT" ]} (RIGHT_parameters self))
      by (by rewrite Hr).
    do 5 (split; [done|]). unfold robot, set_direction. cbn. by rewrite Hpl.
  - exists dl. rewrite HL.
    rewrite (turn_kwargs {[ "direction" := "LEFT" ]} (LEFT_parameters self))
      by (by rewrite Hl).
    do 5 (split; [done|]). unfold robot, set_direction. cbn. by rewrite Hpl.
  - intros d d' Hin. rewrite HR, HL. unfold robot. cbn.
    rewrite !elem_of_cons, elem_of_nil in Hin. apply index_cases in Hi.
    destruct Hi as [[-> Hd]|[[-> Hd]|[[-> Hd]|[-> Hd]]]];
      injection Hdr as <-; injection Hdl as <-; rewrite Hd;
      destruct Hin as [[= -> ->]|[[= -> ->]|[[= -> ->]|[[= -> ->]|[]]]]];
      split; intros [= ]; reflexivity.
  - by apply (four_RIGHT self i).
  - by apply (four_LEFT self i).
Qed.

Lemma C6_witness :
  (placed (execute_all ["PLACE 1,2,NORTH"] (__init__ MAP_SIZE)) = true
   /\ index (direction (execute_all ["PLACE 1,2,NORTH"] (__init__ MAP_SIZE)))
        DIRECTIONS = Some 0
   /\ parameters_intact (execute_all ["PLACE 1,2,NORTH"] (__init__ MAP_SIZE)) = true)
  /\ execute_command "LEFT" (execute_all ["PLACE 1,2,NORTH"] (__init__ MAP_SIZE))
     = (Return tt,
        set_direction (Some "WEST")
          (execute_all ["PLACE 1,2,NORTH"] (__init__ MAP_SIZE)), [])
  /\ state (robot (execute_command "LEFT"
                     (execute_all ["PLACE 1,2,NORTH"] (__init__ MAP_SIZE))))
     = (true, Some (1, 2), Some "WEST")
  /\ state (robot (execute_command "RIGHT"
                     (execute_all ["PLACE 1,2,NORTH"] (__init__ MAP_SIZE))))
     = (true, Some (1, 2), Some "EAST")
  /\ execute_all ["LEFT"; "LEFT"; "LEFT"; "LEFT"]
       (execute_all ["PLACE 1,2,NORTH"] (__init__ MAP_SIZE))
     = execute_all ["PLACE 1,2,NORTH"] (__init__ MAP_SIZE).
Proof.
  split; [repeat split; reflexivity|].
  destruct (C6_turn (execute_all ["PLACE 1,2,NORTH"] (__init__ MAP_SIZE)) 0)
    as ((dr & Hdr & _ & _ & _ & _ & Hright)
        & (dl & Hdl & _ & Hleft & _ & _ & Hleft') & _ & _ & Hfour);
    [reflexivity..|].
  injection Hdr as <-. injection Hdl as <-.
  split; [exact Hleft|]. split; [by rewrite Hleft'|].
  split; [by rewrite Hright | exact Hfour].
Defined.

(** ** C7: PLACE with a coordinate that is not a numeral *)

Lemma place_ValueError kwargs self details pos_x pos_y d :
  kwargs !! "action_details" = Some details ->
  Py.strip <$> Py.split "," None details = [pos_x; pos_y; d] ->
  Py.int pos_x = None \/ Py.int pos_y = None ->
  place kwargs self = (Raise ValueError, self, []).
Proof.
  intros Hk Hparts Hint. rewrite place_unfold, Hk, Hparts.
  destruct Hint as [-> | ->]; [done|]. by destruct (Py.int pos_x).
Qed.

(** C7 (what the code does): with three parts of which the first is not a
    numeral, [place] raises [ValueError], which is not the program's
    [InvalidOperationException]; the loop of [run] does not catch it, so
    the commands that follow are never executed. *)
Theorem C7_place_non_numeric_raises_ValueError :
  Py.strip <$> Py.split "," None "A,0,NORTH" = ["A"; "0"; "NORTH"]
  /\ Py.int "A" = None
  /\ place {[ "action_details" := "A,0,NORTH" ]} (__init__ MAP_SIZE)
     = (Raise ValueError, __init__ MAP_SIZE, [])
  /\ execute_command "PLACE A,0,NORTH" (__init__ MAP_SIZE)
     = (Raise ValueError, __init__ MAP_SIZE, [])
  /\ run_commands ["PLACE A,0,NORTH"; "PLACE 0,0,NORTH"; "REPORT"] (__init__ MAP_SIZE)
     = (Raise ValueError, __init__ MAP_SIZE, []).
Proof. repeat split; reflexivity. Qed.

(** ** C8: text after a command that takes no argument *)

(** C8 (what the code does): on a placed robot, [MOVE NOW] and
    [REPORT NOW] raise [TypeError], because the text after the keyword is
    passed as a keyword argument to a method that takes none; [EXIT NOW]
    does so on any robot. None of them is the program's
    [InvalidOperationException], and the loop of [run] stops there. *)
Theorem C8_extra_text_raises_TypeError :
  execute_command "PLACE 0,0,NORTH" (__init__ MAP_SIZE)
  = (Return tt, execute_all ["PLACE 0,0,NORTH"] (__init__ MAP_SIZE), [])
  /\ execute_command "MOVE NOW" (execute_all ["PLACE 0,0,NORTH"] (__init__ MAP_SIZE))
     = (Raise TypeError, execute_all ["PLACE 0,0,NORTH"] (__init__ MAP_SIZE), [])
  /\ execute_command "REPORT NOW" (execute_all ["PLACE 0,0,NORTH"] (__init__ MAP_SIZE))
     = (Raise TypeError, execute_all ["PLACE 0,0,NORTH"] (__init__ MAP_SIZE), [])
  /\ execute_command "EXIT NOW" (__init__ MAP_SIZE)
     = (Raise TypeError, __init__ MAP_SIZE, [])
  /\ result (run_commands ["PLACE 0,0,NORTH"; "MOVE NOW"; "REPORT"] (__init__ MAP_SIZE))
     = Raise TypeError
  /\ stdout (run_commands ["PLACE 0,0,NORTH"; "MOVE NOW"; "REPORT"] (__init__ MAP_SIZE))
     = [].
Proof. repeat split; reflexivity. Qed.

(** ** C9: what each command leaves alone *)

Lemma report_robot kwargs self : robot (report kwargs self) = self.
Proof. rewrite report_unfold. unfold robot. by_cases; done. Qed.

Lemma move_robot kwargs self :
  exists p, robot (move kwargs self) = set_pos p self.
Proof.
  rewrite move_unfold. unfold robot.
  by_cases; (by eexists) || (exists (pos self); by destruct self).
Qed.

Lemma turn_robot kwargs self :
  exists d, robot (turn kwargs self) = set_direction d self.
Proof.
  rewrite turn_unfold. unfold robot.
  by_cases; (by eexists) || (exists (direction self); by destruct self).
Qed.

(** C9: REPORT leaves the whole robot as it is, whether it prints or
    raises, so a second REPORT right after the first gives the same
    outcome and the same output; MOVE changes at most the position
    ([placed], the heading and everything else stay); LEFT and RIGHT
    change at most the heading ([placed] and the position stay). *)
Theorem C9_frame (self : Robot) (kwargs : gmap string string) (command : string) :
  (robot (report kwargs self) = self
   /\ report kwargs (robot (report kwargs self)) = report kwargs self
   /\ (action_of command = "REPORT" ->
       robot (execute_command command self) = self
       /\ execute_command command (robot (execute_command command self))
          = execute_command command self))
  /\ ((exists p, robot (move kwargs self) = set_pos p self)
      /\ (action_of command = "MOVE" ->
          exists p, robot (execute_command command self) = set_pos p self))
  /\ ((exists d, robot (turn kwargs self) = set_direction d self)
      /\ (action_of command = "LEFT" \/ action_of command = "RIGHT" ->
          placed (robot (execute_command command self)) = placed self
          /\ pos (robot (execute_command command self)) = pos self)).
Proof.
  split; [|split].
  - split; [apply report_robot|]. split; [by rewrite report_robot|].
    intros Ha.
    assert (forall r, execute_command command r = report (parameters_of command r) r)
      as Hexec.
    { intros r.
      rewrite (execute_command_call _ (mkExecutor m_report None)) by (by rewrite Ha).
      unfold with_action_details. rewrite Ha. by_cases. }
    assert (robot (execute_command command self) = self) as Hsame
      by (rewrite Hexec; apply report_robot).
    split; [exact Hsame | by rewrite Hsame].
  - split; [apply move_robot|]. intros Ha.
    rewrite (execute_command_call _ (mkExecutor m_move None)) by (by rewrite Ha).
    cbn [function call].
    replace (with_action_details command self) with self
      by (unfold with_action_details; rewrite Ha; by_cases).
    apply move_robot.
  - split; [apply turn_robot|]. intros Ha.
    destruct (with_action_details_state command self) as (Hst & _ & _).
    injection Hst as Hpl Hpos _.
    assert (exists ref, command_map (action_of command)
                        = Some (mkExecutor m_turn ref)) as [ref He]
      by (destruct Ha as [-> | ->]; by eexists).
    rewrite (execute_command_call _ _ _ He). cbn [function call].
    destruct (turn_robot (parameters_of command self)
                (with_action_details command self)) as [d ->].
    by rewrite <- Hpl, <- Hpos.
Qed.

Lemma C9_witness :
  action_of "REPORT" = "REPORT"
  /\ robot (execute_command "REPORT" (execute_all ["PLACE 1,2,EAST"] (__init__ MAP_SIZE)))
     = execute_all ["PLACE 1,2,EAST"] (__init__ MAP_SIZE)
  /\ stdout (execute_command "REPORT"
               (robot (execute_command "REPORT"
                         (execute_all ["PLACE 1,2,EAST"] (__init__ MAP_SIZE)))))
     = ["1, 2, EAST"].
Proof.
  split; [reflexivity|].
  destruct (proj1 (C9_frame (execute_all ["PLACE 1,2,EAST"] (__init__ MAP_SIZE))
                     ∅ "REPORT")) as (_ & _ & H).
  destruct (H eq_refl) as [Hrobot Hagain].
  split; [exact Hrobot|]. rewrite Hagain. reflexivity.
Defined.

(** ** C10: the end-to-end scenario *)

(** C10: on a new robot with the default 5 by 5 map, the command lines
    [PLACE 1,2,EAST], [MOVE], [MOVE], [LEFT], [MOVE], [REPORT] all
    succeed, and the only line printed is the report [3, 3, NORTH]. *)
Theorem C10_end_to_end :
  result (run_commands ["PLACE 1,2,EAST"; "MOVE"; "MOVE"; "LEFT"; "MOVE"; "REPORT"]
            (__init__ MAP_SIZE)) = Return tt
  /\ stdout (run_commands ["PLACE 1,2,EAST"; "MOVE"; "MOVE"; "LEFT"; "MOVE"; "REPORT"]
               (__init__ MAP_SIZE)) = ["3, 3, NORTH"]
  /\ state (robot (run_commands
                     ["PLACE 1,2,EAST"; "MOVE"; "MOVE"; "LEFT"; "MOVE"; "REPORT"]
                     (__init__ MAP_SIZE)))
     = (true, Some (3, 3), Some "NORTH")
  /\ execute_command "REPORT"
       (execute_all ["PLACE 1,2,EAST"; "MOVE"; "MOVE"; "LEFT"; "MOVE"]
          (__init__ MAP_SIZE))
     = (Return tt,
        execute_all ["PLACE 1,2,EAST"; "MOVE"; "MOVE"; "LEFT"; "MOVE"]
          (__init__ MAP_SIZE),
        ["3, 3, NORTH"]).
Proof. repeat split; reflexivity. Qed.

(** * Further properties of the program *)

(** ** Commands that [command_map] does not know *)

Lemma command_map_known action :
  command_map action = None <-> action ∉ known_actions.
Proof.
  unfold command_map, known_actions. rewrite !not_elem_of_cons.
  repeat case_bool_decide; split; try done; try tauto.
  intros _. repeat split; try done. apply not_elem_of_nil.
Qed.

Lemma call_not_UnknownCommand f kwargs self :
  result (call f kwargs self) <> Raise UnknownCommand.
Proof.
  destruct f; cbn [call];
    [rewrite place_unfold | rewrite turn_unfold | rewrite move_unfold
    | rewrite report_unfold | rewrite terminate_unfold];
    unfold result; by_cases; cbn; discriminate.
Qed.

(** X1: a command line raises the invalid-command error exactly when its
    keyword (the text before the first blank of the stripped line) is none
    of PLACE, LEFT, RIGHT, MOVE, REPORT, EXIT; keywords are compared as they
    are written, and the empty line is such a line. The robot is then left
    as it is and nothing is printed. *)
Theorem X1_unknown_command (command : string) (self : Robot) :
  (result (execute_command command self) = Raise UnknownCommand
   <-> action_of command ∉ known_actions)
  /\ (action_of command ∉ known_actions ->
      execute_command command self
      = (Raise (InvalidOperationException "Invalid command. Abort."), self, [])).
Proof.
  split.
  - split.
    + intros Hres. apply command_map_known.
      destruct (command_map (action_of command)) as [e|] eqn:He; [|done].
      rewrite (execute_command_call _ _ _ He) in Hres.
      by apply call_not_UnknownCommand in Hres.
    + intros Ha%command_map_known.
      by rewrite (execute_command_unknown _ _ Ha).
  - intros Ha%command_map_known. by apply execute_command_unknown.
Qed.

Lemma X1_witness :
  (action_of "move" ∉ known_actions)
  /\ execute_command "move" (__init__ MAP_SIZE)
     = (Raise (InvalidOperationException "Invalid command. Abort."),
        __init__ MAP_SIZE, [])
  /\ execute_command "" (__init__ MAP_SIZE)
     = (Raise (InvalidOperationException "Invalid command. Abort."),
        __init__ MAP_SIZE, []).
Proof.
  assert (action_of "move" ∉ known_actions) as Hmove
    by (apply command_map_known; reflexivity).
  assert (action_of "" ∉ known_actions) as Hempty
    by (apply command_map_known; reflexivity).
  split; [exact Hmove|]. split.
  - exact (proj2 (X1_unknown_command "move" (__init__ MAP_SIZE)) Hmove).
  - exact (proj2 (X1_unknown_command "" (__init__ MAP_SIZE)) Hempty).
Defined.

(** ** The number of parts of the argument of PLACE *)

Lemma length_split sep s :
  length (Py.split sep None s) = S (count_char sep s).
Proof.
  induction s as [|c s IH]; [reflexivity|].
  cbn [Py.split count_char fmap option_fmap option_map].
  case_bool_decide; cbn [andb negb].
  - rewrite (bool_decide_eq_false_2 (None = Some O)) by done.
    cbn. by rewrite IH.
  - destruct (Py.split sep None s) as [|w ws]; [discriminate IH|].
    cbn in *. lia.
Qed.

Lemma location_details_length details :
  length (Py.strip <$> Py.split "," None details) = S (count_char "," details).
Proof. by rewrite length_fmap, length_split. Qed.

(** X2: [place] raises the format error, which repeats the argument as it
    was given, exactly when the argument does not hold two commas, and
    then leaves the robot as it is; without any argument it raises the
    same error with the bare keyword. *)
Theorem X2_place_format (kwargs : gmap string string) (self : Robot) (details : string) :
  (kwargs !! "action_details" = None ->
   place kwargs self = (Raise MissingArgument, self, []))
  /\ (kwargs !! "action_details" = Some details ->
      (count_char "," details <> 2%nat ->
       place kwargs self = (Raise (MalformedArgument details), self, []))
      /\ (result (place kwargs self) = Raise (MalformedArgument details)
          <-> count_char "," details <> 2%nat)).
Proof.
  split.
  - intros Hk. by rewrite place_unfold, Hk.
  - intros Hk.
    pose proof (location_details_length details) as Hlen.
    assert (count_char "," details <> 2%nat ->
            place kwargs self = (Raise (MalformedArgument details), self, []))
      as Hbad.
    { intros Hc. rewrite place_unfold, Hk.
      destruct (Py.strip <$> Py.split "," None details)
        as [|a [|b [|c [|e l]]]]; cbn in Hlen; try done. lia. }
    split; [exact Hbad|]. split.
    + intros Hres Hc. rewrite place_unfold, Hk in Hres.
      destruct (Py.strip <$> Py.split "," None details)
        as [|a [|b [|c [|e l]]]]; cbn in Hlen; try lia.
      unfold result in Hres. revert Hres. by_cases; cbn; discriminate.
    + intros Hc. by rewrite (Hbad Hc).
Qed.

Lemma X2_witness :
  count_char "," "1,2" <> 2%nat
  /\ place {[ "action_details" := "1,2" ]} (__init__ MAP_SIZE)
     = (Raise (MalformedArgument "1,2"), __init__ MAP_SIZE, []).
Proof.
  assert (count_char "," "1,2" <> 2%nat) as Hc by (vm_compute; lia).
  split; [exact Hc|].
  exact (proj1 (proj2 (X2_place_format {[ "action_details" := "1,2" ]}
                         (__init__ MAP_SIZE) "1,2") eq_refl) Hc).
Defined.

(** ** What REPORT prints can be given back to PLACE *)

Lemma plain_free sep s :
  string_forall (plain_char sep) s = true -> free_of sep s = true.
Proof.
  unfold free_of. induction s as [|c s IH]; [done|]. cbn.
  intros [[Hc _]%andb_true_iff Hs]%andb_true_iff. by rewrite Hc, IH.
Qed.

Lemma split_free sep m s : free_of sep s = true -> Py.split sep m s = [s].
Proof.
  unfold free_of. induction s as [|c s IH]; [reflexivity|]. cbn.
  intros [Hc Hs]%andb_true_iff.
  apply negb_true_iff in Hc. rewrite Hc, (IH Hs). reflexivity.
Qed.

Lemma split_app_free sep m s t :
  free_of sep s = true -> m <> Some O ->
  Py.split sep m (s ++ String sep t) = s :: Py.split sep (Nat.pred <$> m) t.
Proof.
  unfold free_of. intros Hs Hm. induction s as [|c s IH]; simpl.
  - rewrite bool_decide_eq_true_2 by reflexivity.
    rewrite (bool_decide_eq_false_2 _ Hm). reflexivity.
  - simpl in Hs. apply andb_true_iff in Hs as [Hc Hs].
    apply negb_true_iff in Hc. rewrite Hc, (IH Hs). reflexivity.
Qed.

Lemma command_seq_PLACE_argument argument :
  Py.rstrip argument = argument -> argument <> EmptyString ->
  command_seq ("PLACE " ++ argument) = ["PLACE"; argument].
Proof.
  intros Hr Hne. unfold command_seq, Py.strip.
  change (Py.lstrip ("PLACE " ++ argument))
    with ("PLACE" ++ String " " argument).
  rewrite rstrip_app.
  - rewrite split_app by done. cbn [fmap option_fmap option_map Nat.pred].
    by rewrite split_no_limit_reached.
  - cbn [Py.rstrip]. rewrite Hr. by destruct argument.
  - discriminate.
Qed.

Lemma execute_command_PLACE_argument argument self :
  Py.rstrip argument = argument -> argument <> EmptyString ->
  execute_command ("PLACE " ++ argument) self
  = place {[ "action_details" := argument ]} self.
Proof.
  intros Hr Hne.
  rewrite (execute_command_call _ (mkExecutor m_place None));
    unfold action_of, parameters_of, with_action_details, action_of;
    rewrite (command_seq_PLACE_argument argument Hr Hne); reflexivity.
Qed.

Lemma REPORT_line_rstrip x y d :
  string_forall (plain_char ",") d = true -> d <> EmptyString ->
  Py.rstrip (REPORT_line x y d) = REPORT_line x y d
  /\ REPORT_line x y d <> EmptyString.
Proof.
  intros Hd Hne. unfold REPORT_line.
  repeat apply rstrip_app_fixed. split; [by apply (rstrip_plain ",")|done].
Qed.

Lemma location_details_REPORT_line x y d :
  string_forall (plain_char ",") d = true ->
  Py.strip <$> Py.split "," None (REPORT_line x y d) = [Py.str x; Py.str y; d].
Proof.
  intros Hd. unfold REPORT_line.
  change (Py.str x ++ ", " ++ Py.str y ++ ", " ++ d)
    with (Py.str x ++ String "," ((" " ++ Py.str y) ++ String "," (" " ++ d))).
  assert (free_of "," (" " ++ Py.str y) = true) as Hy
    by (apply (plain_free "," (Py.str y)), str_plain).
  assert (free_of "," (" " ++ d) = true) as Hd'
    by (by apply (plain_free "," d)).
  rewrite split_app_free by (done || apply plain_free, str_plain).
  rewrite split_app_free by done. rewrite (split_free _ _ _ Hd').
  cbn [fmap list_fmap option_fmap option_map].
  change (Py.strip (" " ++ Py.str y)) with (Py.strip (Py.str y)).
  change (Py.strip (" " ++ d)) with (Py.strip d).
  rewrite !(strip_plain ",") by (done || apply str_plain). reflexivity.
Qed.

(** X4: for a placed robot in a state that satisfies the invariant,
    REPORT prints one line, and the command made of PLACE, a blank and that
    line, given to any robot with a map of the same size, succeeds and
    puts that robot in the state of the first one. *)
Theorem X4_report_place_round_trip (self other : Robot) :
  invariant self = true -> placed self = true ->
  map_size_x other = map_size_x self -> map_size_y other = map_size_y self ->
  exists line other',
    execute_command "REPORT" self = (Return tt, self, [line])
    /\ execute_command ("PLACE " ++ line) other = (Return tt, other', [])
    /\ state other' = state self.
Proof.
  intros Hinv Hpl Hx Hy.
  destruct (invariant_spec self Hinv) as (_ & _ & Hplaced).
  destruct (Hplaced Hpl) as ([x y] & d & Hpos & Hvalid & Hdir & Hin).
  destruct (DIRECTIONS_plain d Hin) as [Hplain Hne].
  destruct (REPORT_line_rstrip x y d Hplain Hne) as [Hr Hn].
  exists (REPORT_line x y d).
  exists (set_placed true (set_direction (Some d) (set_pos (Some (x, y)) other))).
  split; [|split].
  - rewrite execute_command_REPORT, report_unfold, Hpl, Hpos, Hdir.
    by rewrite bool_decide_eq_true_2.
  - rewrite execute_command_PLACE_argument, place_unfold by done.
    rewrite lookup_singleton_eq, (location_details_REPORT_line x y d Hplain).
    rewrite !int_str.
    assert (is_valid_pos other (x, y) = true) as ->.
    { apply is_valid_pos_spec. rewrite Hx, Hy. by apply is_valid_pos_spec. }
    by rewrite (bool_decide_eq_true_2 _ Hin : is_valid_direction d = true).
  - unfold state. cbn. by rewrite Hpl, Hpos, Hdir.
Qed.

Lemma X4_witness :
  exists line other',
    execute_command "REPORT" (execute_all ["PLACE 3,4,SOUTH"] (__init__ MAP_SIZE))
    = (Return tt, execute_all ["PLACE 3,4,SOUTH"] (__init__ MAP_SIZE), [line])
    /\ execute_command ("PLACE " ++ line) (__init__ MAP_SIZE) = (Return tt, other', [])
    /\ state other' = state (execute_all ["PLACE 3,4,SOUTH"] (__init__ MAP_SIZE)).
Proof.
  apply (X4_report_place_round_trip
           (execute_all ["PLACE 3,4,SOUTH"] (__init__ MAP_SIZE)) (__init__ MAP_SIZE));
    reflexivity.
Defined.

(** ** The heading that PLACE reads *)

Lemma rstrip_idempotent s : Py.rstrip (Py.rstrip s) = Py.rstrip s.
Proof.
  induction s as [|c s IH]; [reflexivity|]. cbn [Py.rstrip].
  destruct (Py.rstrip s) as [|a r] eqn:Hr.
  - destruct (Py.isspace c) eqn:Hc; [reflexivity|].
    cbn [Py.rstrip]. by rewrite Hc.
  - cbn [Py.rstrip]. cbn [Py.rstrip] in IH. by rewrite IH.
Qed.

Lemma lstrip_rstrip s : Py.lstrip (Py.rstrip s) = Py.rstrip (Py.lstrip s).
Proof.
  induction s as [|c s IH]; [reflexivity|]. cbn [Py.rstrip Py.lstrip].
  destruct (Py.isspace c) eqn:Hc.
  - rewrite <- IH. destruct (Py.rstrip s) as [|a r]; [reflexivity|].
    cbn [Py.lstrip]. by rewrite Hc.
  - cbn [Py.rstrip]. rewrite Hc.
    destruct (Py.rstrip s) as [|a r]; cbn [Py.lstrip]; by rewrite Hc.
Qed.

Lemma strip_rstrip s : Py.strip (Py.rstrip s) = Py.strip s.
Proof. unfold Py.strip. by rewrite lstrip_rstrip, rstrip_idempotent. Qed.

Lemma rstrip_cons c s :
  Py.rstrip (String c s)
  = match Py.rstrip s with
    | EmptyString => if Py.isspace c then EmptyString else String c EmptyString
    | String a r => String c (String a r)
    end.
Proof. reflexivity. Qed.

Lemma rstrip_app_r s t :
  Py.rstrip s = s -> s <> EmptyString -> Py.rstrip (s ++ t) = s ++ Py.rstrip t.
Proof.
  induction s as [|c s IH]; [done|]. intros Hs _.
  change (String c s ++ t) with (String c (s ++ t)).
  change (String c s ++ Py.rstrip t) with (String c (s ++ Py.rstrip t)).
  rewrite rstrip_cons in Hs. rewrite rstrip_cons.
  destruct s as [|a s].
  - change (EmptyString ++ t) with t.
    change (EmptyString ++ Py.rstrip t) with (Py.rstrip t).
    change (Py.rstrip EmptyString) with EmptyString in Hs.
    destruct (Py.isspace c); [discriminate Hs|].
    by destruct (Py.rstrip t).
  - assert (Py.rstrip (String a s) = String a s) as Hs'.
    { destruct (Py.rstrip (String a s)) as [|b r];
        [destruct (Py.isspace c); discriminate Hs | congruence]. }
    rewrite (IH Hs') by discriminate.
    change (String a s ++ Py.rstrip t) with (String a (s ++ Py.rstrip t)).
    reflexivity.
Qed.

Lemma free_of_rstrip sep s :
  free_of sep s = true -> free_of sep (Py.rstrip s) = true.
Proof.
  unfold free_of. induction s as [|c s IH]; [done|]. cbn.
  intros [Hc Hs]%andb_true_iff. specialize (IH Hs).
  destruct (Py.rstrip s) as [|a r].
  - destruct (Py.isspace c); cbn; [done|]. by rewrite Hc.
  - cbn in *. by rewrite Hc, IH.
Qed.

Lemma command_seq_PLACE_heading x y d :
  command_seq (PLACE_command x y d) = ["PLACE"; PLACE_details x y (Py.rstrip d)].
Proof.
  unfold command_seq, PLACE_command, PLACE_details, Py.strip.
  change (Py.lstrip ("PLACE " ++ Py.str x ++ "," ++ Py.str y ++ "," ++ d))
    with ("PLACE" ++ String " " (Py.str x ++ "," ++ Py.str y ++ "," ++ d)).
  assert ("PLACE" ++ String " " (Py.str x ++ "," ++ Py.str y ++ "," ++ d)
          = ("PLACE " ++ Py.str x ++ "," ++ Py.str y ++ ",") ++ d) as ->
    by (by rewrite <- !append_assoc).
  rewrite rstrip_app_r.
  - assert (("PLACE " ++ Py.str x ++ "," ++ Py.str y ++ ",") ++ Py.rstrip d
            = "PLACE" ++ String " "
                (Py.str x ++ "," ++ Py.str y ++ "," ++ Py.rstrip d)) as ->
      by (by rewrite <- !append_assoc).
    rewrite split_app by done. cbn [fmap option_fmap option_map Nat.pred].
    by rewrite split_no_limit_reached.
  - change ("PLACE " ++ Py.str x ++ "," ++ Py.str y ++ ",")
      with ("PLACE " ++ (Py.str x ++ "," ++ (Py.str y ++ ","))).
    by repeat apply rstrip_app_fixed.
  - discriminate.
Qed.

Lemma location_details_heading x y d :
  free_of "," d = true ->
  Py.strip <$> Py.split "," None (PLACE_details x y (Py.rstrip d))
  = [Py.str x; Py.str y; Py.strip d].
Proof.
  intros Hd. unfold PLACE_details.
  change (Py.str x ++ "," ++ Py.str y ++ "," ++ Py.rstrip d)
    with (Py.str x ++ String "," (Py.str y ++ String "," (Py.rstrip d))).
  rewrite !split_app_free by (done || apply plain_free, str_plain).
  rewrite (split_free _ _ _ (free_of_rstrip _ _ Hd)).
  cbn [fmap list_fmap option_fmap option_map].
  by rewrite !(strip_plain ",") by apply str_plain; rewrite strip_rstrip.
Qed.

Lemma execute_command_PLACE_heading self x y d :
  free_of "," d = true ->
  execute_command (PLACE_command x y d) self =
  if is_valid_pos self (x, y) then
    if is_valid_direction (Py.strip d) then
      (Return tt,
       set_placed true
         (set_direction (Some (Py.strip d)) (set_pos (Some (x, y)) self)), [])
    else (Raise InvalidHeading, self, [])
  else (Raise (OutOfBounds self), self, []).
Proof.
  intros Hd.
  assert (execute_command (PLACE_command x y d) self
          = place {[ "action_details" := PLACE_details x y (Py.rstrip d) ]} self)
    as ->.
  { rewrite (execute_command_call _ (mkExecutor m_place None));
      unfold action_of, parameters_of, with_action_details, action_of;
      rewrite (command_seq_PLACE_heading x y d); reflexivity. }
  rewrite place_unfold, lookup_singleton_eq.
  rewrite (location_details_heading x y d Hd), !int_str. reflexivity.
Qed.

(** X3: the heading of a PLACE line is the text behind the second comma,
    stripped of the white space around it, and it is compared as written.
    For a target on the map and a text without a further comma: when the
    stripped text is one of NORTH, EAST, SOUTH, WEST, the robot is placed
    with that heading; in every other case (a name in lower case, no text
    at all, a blank inside) the command raises the invalid-direction
    error and the robot is left as it is. *)
Theorem X3_place_heading (self : Robot) (x y : Z) (d : string) :
  0 <= x < map_size_x self -> 0 <= y < map_size_y self ->
  free_of "," d = true ->
  (is_valid_direction (Py.strip d) = false ->
   execute_command (PLACE_command x y d) self
   = (Raise
        (InvalidOperationException
           "Invalid direction, should be one of ('NORTH', 'EAST', 'SOUTH', 'WEST')"),
      self, []))
  /\ (is_valid_direction (Py.strip d) = true ->
      execute_command (PLACE_command x y d) self
      = (Return tt,
         mkRobot true (map_size_x self) (map_size_y self)
           (Some (x, y)) (Some (Py.strip d))
           (LEFT_parameters self) (RIGHT_parameters self),
         [])).
Proof.
  intros Hx Hy Hd. rewrite (execute_command_PLACE_heading self x y d Hd).
  rewrite (proj2 (is_valid_pos_spec self x y)) by done.
  split; intros ->; reflexivity.
Qed.

Lemma X3_witness :
  execute_command "PLACE 0,0,NORTH EAST" (__init__ MAP_SIZE)
  = (Raise
       (InvalidOperationException
          "Invalid direction, should be one of ('NORTH', 'EAST', 'SOUTH', 'WEST')"),
     __init__ MAP_SIZE, [])
  /\ execute_command "PLACE 0,0," (__init__ MAP_SIZE)
     = (Raise
          (InvalidOperationException
             "Invalid direction, should be one of ('NORTH', 'EAST', 'SOUTH', 'WEST')"),
        __init__ MAP_SIZE, [])
  /\ state (robot (execute_command "PLACE 0,0, NORTH " (__init__ MAP_SIZE)))
     = (true, Some (0, 0), Some "NORTH").
Proof.
  assert (0 <= 0 < map_size_x (__init__ MAP_SIZE)) as Hx by (cbn; lia).
  assert (0 <= 0 < map_size_y (__init__ MAP_SIZE)) as Hy by (cbn; lia).
  split; [|split].
  - exact (proj1 (X3_place_heading (__init__ MAP_SIZE) 0 0 "NORTH EAST"
                    Hx Hy eq_refl) eq_refl).
  - exact (proj1 (X3_place_heading (__init__ MAP_SIZE) 0 0 ""
                    Hx Hy eq_refl) eq_refl).
  - change "PLACE 0,0, NORTH " with (PLACE_command 0 0 " NORTH ").
    by rewrite (proj2 (X3_place_heading (__init__ MAP_SIZE) 0 0 " NORTH "
                         Hx Hy eq_refl) eq_refl).
Defined.

(** ** Turning and moving, composed *)

Lemma execute_all_app commands commands' self :
  execute_all (commands ++ commands')%list self
  = execute_all commands' (execute_all commands self).
Proof. unfold execute_all. apply foldl_app. Qed.

Lemma index_inj d d' i :
  index (Some d) DIRECTIONS = Some i -> index (Some d') DIRECTIONS = Some i ->
  d = d'.
Proof.
  intros H H'. apply index_cases in H. apply index_cases in H'.
  destruct H as [[-> [= ->]]|[[-> [= ->]]|[[-> [= ->]]|[-> [= ->]]]]];
    destruct H' as [[? [= ->]]|[[? [= ->]]|[[? [= ->]]|[? [= ->]]]]]; done.
Qed.

Lemma index_range d i : index d DIRECTIONS = Some i -> 0 <= i < 4.
Proof. intros H%index_cases. lia. Qed.

Lemma execute_turn keyword (step : Z) self i :
  (keyword = "RIGHT" /\ step = 1 \/ keyword = "LEFT" /\ step = -1) ->
  placed self = true -> index (direction self) DIRECTIONS = Some i ->
  parameters_intact self = true ->
  exists d,
    index (Some d) DIRECTIONS = Some ((i + step) `mod` 4)
    /\ execute_command keyword self = (Return tt, set_direction (Some d) self, []).
Proof.
  intros Hkey Hpl Hi [Hl Hr]%parameters_intact_spec.
  destruct Hkey as [[-> ->]|[-> ->]].
  - destruct (turn_step (RIGHT_parameters self) self i 1 Hpl Hi)
      as (d & _ & Hi' & Ht); [auto|].
    exists d. by rewrite execute_command_RIGHT.
  - destruct (turn_step (LEFT_parameters self) self i (-1) Hpl Hi)
      as (d & _ & Hi' & Ht); [auto|].
    exists d. by rewrite execute_command_LEFT.
Qed.

(** Two turns, the second by [step'] after the first by [step]. *)
Lemma execute_two_turns keyword step keyword' step' self i :
  (keyword = "RIGHT" /\ step = 1 \/ keyword = "LEFT" /\ step = -1) ->
  (keyword' = "RIGHT" /\ step' = 1 \/ keyword' = "LEFT" /\ step' = -1) ->
  placed self = true -> index (direction self) DIRECTIONS = Some i ->
  parameters_intact self = true ->
  exists d,
    index (Some d) DIRECTIONS = Some ((i + step + step') `mod` 4)
    /\ execute_all [keyword; keyword'] self = set_direction (Some d) self.
Proof.
  intros Hkey Hkey' Hpl Hi Hk.
  destruct (execute_turn keyword step self i Hkey Hpl Hi Hk) as (d1 & Hi1 & H1).
  destruct (execute_turn keyword' step' (set_direction (Some d1) self) _
              Hkey' Hpl Hi1 Hk) as (d2 & Hi2 & H2).
  exists d2. split.
  - rewrite Hi2. f_equal. by rewrite Zplus_mod_idemp_l.
  - unfold execute_all. cbn [foldl]. rewrite H1. cbn [robot fst snd].
    by rewrite H2.
Qed.

(** X5: on a placed robot with one of the four headings, LEFT undoes
    RIGHT and RIGHT undoes LEFT: after the two commands the robot is the
    one it was. *)
Theorem X5_left_right_inverse (self : Robot) (i : Z) :
  placed self = true -> index (direction self) DIRECTIONS = Some i ->
  parameters_intact self = true ->
  execute_all ["RIGHT"; "LEFT"] self = self
  /\ execute_all ["LEFT"; "RIGHT"] self = self.
Proof.
  intros Hpl Hi Hk. pose proof (index_range _ _ Hi) as Hrange.
  assert (exists d, direction self = Some d) as [d Hd]
    by (destruct (direction self); [eauto | discriminate Hi]).
  pose proof Hi as Hid. rewrite Hd in Hid.
  assert (forall d', index (Some d') DIRECTIONS = Some i ->
                     set_direction (Some d') self = self) as Hback.
  { intros d' Hi'. rewrite (index_inj d' d i Hi' Hid), <- Hd.
    apply set_direction_same. }
  split.
  - destruct (execute_two_turns "RIGHT" 1 "LEFT" (-1) self i) as (d' & Hi' & ->);
      auto.
    apply Hback. rewrite Hi'. f_equal.
    replace (i + 1 + -1) with i by lia. by apply Z.mod_small.
  - destruct (execute_two_turns "LEFT" (-1) "RIGHT" 1 self i) as (d' & Hi' & ->);
      auto.
    apply Hback. rewrite Hi'. f_equal.
    replace (i + -1 + 1) with i by lia. by apply Z.mod_small.
Qed.

Lemma X5_witness :
  execute_all ["LEFT"; "RIGHT"]
    (execute_all ["PLACE 1,2,NORTH"] (__init__ MAP_SIZE))
  = execute_all ["PLACE 1,2,NORTH"] (__init__ MAP_SIZE).
Proof.
  apply (X5_left_right_inverse
           (execute_all ["PLACE 1,2,NORTH"] (__init__ MAP_SIZE)) 0);
    reflexivity.
Defined.

Lemma STEP_BY_DIRECTION_index d i :
  index (Some d) DIRECTIONS = Some i ->
  STEP_BY_DIRECTION !! d
  = Some (if bool_decide (i = 0) then (0, 1)
          else if bool_decide (i = 1) then (1, 0)
          else if bool_decide (i = 2) then (0, -1)
          else (-1, 0)).
Proof.
  intros H%index_cases.
  destruct H as [[-> [= ->]]|[[-> [= ->]]|[[-> [= ->]]|[-> [= ->]]]]];
    reflexivity.
Qed.

Lemma move_placed self x y d dx dy :
  placed self = true -> pos self = Some (x, y) -> direction self = Some d ->
  STEP_BY_DIRECTION !! d = Some (dx, dy) ->
  execute_command "MOVE" self =
  if is_valid_pos self (x + dx, y + dy) then
    (Return tt, set_pos (Some (x + dx, y + dy)) self, [])
  else (Raise (UnreachableDestination (x + dx, y + dy)), self, []).
Proof.
  intros Hpl Hpos Hdir Hstep.
  rewrite execute_command_MOVE, move_unfold, Hpl, Hpos, Hdir. cbn.
  rewrite Hstep. by rewrite bool_decide_eq_true_2.
Qed.

(** X6: a placed robot facing NORTH can move exactly when it is not in the
    top row, facing SOUTH when not in the bottom row, facing EAST when not
    in the rightmost column and facing WEST when not in the leftmost one;
    in every state that satisfies the invariant. *)
Theorem X6_move_succeeds_iff (self : Robot) (x y : Z) (d : string) :
  invariant self = true -> placed self = true ->
  pos self = Some (x, y) -> direction self = Some d ->
  (result (execute_command "MOVE" self) = Return tt
   <-> (d = "NORTH" /\ y + 1 < map_size_y self)
       \/ (d = "SOUTH" /\ 0 < y)
       \/ (d = "EAST" /\ x + 1 < map_size_x self)
       \/ (d = "WEST" /\ 0 < x)).
Proof.
  intros Hinv Hpl Hpos Hdir.
  destruct (invariant_spec self Hinv) as (_ & _ & Hplaced).
  destruct (Hplaced Hpl) as (p & d' & Hpos' & Hvalid & Hdir' & Hin).
  rewrite Hpos in Hpos'. rewrite Hdir in Hdir'.
  injection Hpos' as <-. injection Hdir' as <-.
  apply is_valid_pos_spec in Hvalid.
  assert (forall dx dy,
            STEP_BY_DIRECTION !! d = Some (dx, dy) ->
            result (execute_command "MOVE" self) = Return tt
            <-> 0 <= x + dx < map_size_x self /\ 0 <= y + dy < map_size_y self)
    as Hmove.
  { intros dx dy Hstep. rewrite (move_placed self x y d dx dy) by done.
    rewrite <- is_valid_pos_spec.
    destruct (is_valid_pos self (x + dx, y + dy)); cbn; split; done. }
  unfold DIRECTIONS in Hin. rewrite !elem_of_cons, elem_of_nil in Hin.
  destruct Hin as [->|[->|[->|[->|[]]]]];
    [rewrite (Hmove 0 1) by reflexivity
    |rewrite (Hmove 1 0) by reflexivity
    |rewrite (Hmove 0 (-1)) by reflexivity
    |rewrite (Hmove (-1) 0) by reflexivity];
    split; try (intros [[? ?]|[[? ?]|[[? ?]|[? ?]]]]; try discriminate); lia
    || (intros ?; (left; split; [done|lia])
                  || (right; left; split; [done|lia])
                  || (right; right; left; split; [done|lia])
                  || (right; right; right; split; [done|lia])).
Qed.

Lemma X6_witness :
  result (execute_command "MOVE"
            (execute_all ["PLACE 0,4,WEST"] (__init__ MAP_SIZE))) <> Return tt.
Proof.
  intros H.
  apply (X6_move_succeeds_iff
           (execute_all ["PLACE 0,4,WEST"] (__init__ MAP_SIZE)) 0 4 "WEST"
           eq_refl eq_refl eq_refl eq_refl) in H.
  destruct H as [[? _]|[[? _]|[[? _]|[_ ?]]]]; (discriminate || lia).
Defined.

Lemma index_of_direction d :
  d ∈ DIRECTIONS -> exists i, index (Some d) DIRECTIONS = Some i.
Proof.
  unfold DIRECTIONS. rewrite !elem_of_cons, elem_of_nil.
  intros [->|[->|[->|[->|[]]]]]; eexists; reflexivity.
Qed.

Lemma execute_all_MOVE self x y d dx dy :
  placed self = true -> pos self = Some (x, y) -> direction self = Some d ->
  STEP_BY_DIRECTION !! d = Some (dx, dy) ->
  is_valid_pos self (x + dx, y + dy) = true ->
  execute_all ["MOVE"] self = set_pos (Some (x + dx, y + dy)) self.
Proof.
  intros Hpl Hpos Hdir Hstep Hv. unfold execute_all. cbn [foldl].
  by rewrite (move_placed self x y d dx dy), Hv.
Qed.

(** X7: when MOVE succeeds on a placed robot, turning about (RIGHT twice),
    moving again and turning about once more brings the robot back: after
    MOVE, RIGHT, RIGHT, MOVE, RIGHT, RIGHT the robot is the one it was. *)
Theorem X7_move_and_back (self : Robot) :
  invariant self = true -> placed self = true ->
  parameters_intact self = true ->
  result (execute_command "MOVE" self) = Return tt ->
  execute_all ["MOVE"; "RIGHT"; "RIGHT"; "MOVE"; "RIGHT"; "RIGHT"] self = self.
Proof.
  intros Hinv Hpl Hk Hres.
  destruct (invariant_spec self Hinv) as (_ & _ & Hplaced).
  destruct (Hplaced Hpl) as ([x y] & d & Hpos & Hvalid & Hdir & Hin).
  destruct (index_of_direction d Hin) as [i Hi].
  pose proof (index_range _ _ Hi) as Hrange.
  pose proof (STEP_BY_DIRECTION_index d i Hi) as Hstep.
  destruct (if bool_decide (i = 0) then (0, 1)
            else if bool_decide (i = 1) then (1, 0)
            else if bool_decide (i = 2) then (0, -1) else (-1, 0))
    as [dx dy] eqn:Hst.
  rewrite (move_placed self x y d dx dy) in Hres by done.
  destruct (is_valid_pos self (x + dx, y + dy)) eqn:Hv; [|discriminate Hres].
  change ["MOVE"; "RIGHT"; "RIGHT"; "MOVE"; "RIGHT"; "RIGHT"]
    with (["MOVE"] ++ ["RIGHT"; "RIGHT"] ++ ["MOVE"] ++ ["RIGHT"; "RIGHT"])%list.
  rewrite !execute_all_app.
  rewrite (execute_all_MOVE self x y d dx dy) by done.
  destruct (execute_two_turns "RIGHT" 1 "RIGHT" 1
              (set_pos (Some (x + dx, y + dy)) self) i)
    as (d2 & Hi2 & ->); [auto | auto | done | by (cbn; rewrite Hdir) | done |].
  pose proof (STEP_BY_DIRECTION_index d2 _ Hi2) as Hstep2.
  assert (STEP_BY_DIRECTION !! d2 = Some (- dx, - dy)) as Hback.
  { rewrite Hstep2. clear -Hrange Hst.
    assert (i = 0 \/ i = 1 \/ i = 2 \/ i = 3) as [-> | [-> | [-> | ->]]] by lia;
      cbn in Hst; injection Hst as <- <-; reflexivity. }
  rewrite (execute_all_MOVE _ (x + dx) (y + dy) d2 (- dx) (- dy)); try done.
  2: { replace (x + dx + - dx) with x by lia.
       replace (y + dy + - dy) with y by lia. exact Hvalid. }
  replace (x + dx + - dx) with x by lia.
  replace (y + dy + - dy) with y by lia.
  destruct (execute_two_turns "RIGHT" 1 "RIGHT" 1
              (set_pos (Some (x, y))
                 (set_direction (Some d2) (set_pos (Some (x + dx, y + dy)) self)))
              ((i + 1 + 1) `mod` 4))
    as (d4 & Hi4 & ->); [auto | auto | done | done | done |].
  assert (d4 = d) as ->.
  { apply (index_inj d4 d i); [|done]. rewrite Hi4. f_equal. clear -Hrange.
    assert (i = 0 \/ i = 1 \/ i = 2 \/ i = 3) as [-> | [-> | [-> | ->]]] by lia;
      reflexivity. }
  destruct self; cbn in *. by rewrite Hpos, Hdir.
Qed.

Lemma X7_witness :
  execute_all ["MOVE"; "RIGHT"; "RIGHT"; "MOVE"; "RIGHT"; "RIGHT"]
    (execute_all ["PLACE 1,2,EAST"] (__init__ MAP_SIZE))
  = execute_all ["PLACE 1,2,EAST"] (__init__ MAP_SIZE).
Proof.
  apply (X7_move_and_back (execute_all ["PLACE 1,2,EAST"] (__init__ MAP_SIZE)));
    reflexivity.
Defined.

(** ** Text after LEFT or RIGHT *)

Lemma turn_write_ref ref d kwargs self :
  turn kwargs (write_ref ref d self)
  = (result (turn kwargs self), write_ref ref d (robot (turn kwargs self)),
     stdout (turn kwargs self)).
Proof.
  rewrite !turn_unfold. unfold result, robot, stdout.
  destruct ref; cbn; by_cases; reflexivity.
Qed.

Lemma execute_all_cons command commands self :
  execute_all (command :: commands) self
  = execute_all commands (robot (execute_command command self)).
Proof. reflexivity. Qed.

Lemma effect_parameters f self self' :
  effect f self self' ->
  LEFT_parameters self' = LEFT_parameters self
  /\ RIGHT_parameters self' = RIGHT_parameters self.
Proof. by destruct 1. Qed.

Lemma execute_command_parameters command self :
  LEFT_parameters (robot (execute_command command self))
  = LEFT_parameters (with_action_details command self)
  /\ RIGHT_parameters (robot (execute_command command self))
     = RIGHT_parameters (with_action_details command self).
Proof.
  destruct (execute_command_effect command self) as [->|(e & _ & Heff)];
    [done|].
  by apply effect_parameters in Heff.
Qed.

Lemma with_action_details_parameters command self :
  (~ (action_of command = "LEFT" /\ (1 < length (command_seq command))%nat) ->
   LEFT_parameters (with_action_details command self) = LEFT_parameters self)
  /\ (~ (action_of command = "RIGHT" /\ (1 < length (command_seq command))%nat) ->
      RIGHT_parameters (with_action_details command self) = RIGHT_parameters self).
Proof.
  unfold with_action_details.
  destruct (command_map (action_of command)) as [ex|] eqn:He; [|done].
  apply command_map_cases in He.
  destruct He as [[Ha ->]|[[Ha ->]|[[Ha ->]|[[Ha ->]|[[Ha ->]|[Ha ->]]]]]];
    destruct (command_seq command) as [|a [|details l]]; cbn;
    split; intros Hother; try reflexivity;
    exfalso; apply Hother; (split; [exact Ha | lia]).
Qed.

Lemma execute_all_parameters_kept later : forall self,
  (Forall (fun c => ~ (action_of c = "LEFT"
                       /\ (1 < length (command_seq c))%nat)) later ->
   LEFT_parameters (execute_all later self) = LEFT_parameters self)
  /\ (Forall (fun c => ~ (action_of c = "RIGHT"
                          /\ (1 < length (command_seq c))%nat)) later ->
      RIGHT_parameters (execute_all later self) = RIGHT_parameters self).
Proof.
  induction later as [|c later IH]; intros self; [done|].
  rewrite execute_all_cons.
  destruct (IH (robot (execute_command c self))) as [IHl IHr].
  destruct (execute_command_parameters c self) as [Hl Hr].
  destruct (with_action_details_parameters c self) as [Hl' Hr'].
  split; intros [Hc Hlater]%Forall_cons.
  - by rewrite IHl, Hl, Hl'.
  - by rewrite IHr, Hr, Hr'.
Qed.

(** X8: text after LEFT or RIGHT does not change what the command does:
    outcome, printed lines, [placed], position and heading are those of the
    bare command. The text is kept in the dictionary that [command_map]
    holds for the keyword, whatever the outcome, and it stays there: after
    any later commands, as long as none of them is the same keyword with
    a text of its own, the dictionary is the same, and a later bare
    keyword hands the old text to [turn] as [action_details]. *)
Theorem X8_turn_with_text (command keyword details : string) (self : Robot) :
  keyword = "LEFT" \/ keyword = "RIGHT" ->
  command_seq command = [keyword; details] ->
  result (execute_command command self) = result (execute_command keyword self)
  /\ stdout (execute_command command self) = stdout (execute_command keyword self)
  /\ state (robot (execute_command command self))
     = state (robot (execute_command keyword self))
  /\ (keyword = "LEFT" ->
      LEFT_parameters (robot (execute_command command self))
      = <["action_details" := details]> (LEFT_parameters self))
  /\ (keyword = "RIGHT" ->
      RIGHT_parameters (robot (execute_command command self))
      = <["action_details" := details]> (RIGHT_parameters self))
  /\ (forall later,
        Forall (fun c => ~ (action_of c = keyword
                            /\ (1 < length (command_seq c))%nat)) later ->
        (keyword = "LEFT" ->
         LEFT_parameters (execute_all later (robot (execute_command command self)))
         = <["action_details" := details]> (LEFT_parameters self))
        /\ (keyword = "RIGHT" ->
            RIGHT_parameters
              (execute_all later (robot (execute_command command self)))
            = <["action_details" := details]> (RIGHT_parameters self))
        /\ parameters_of keyword
             (execute_all later (robot (execute_command command self)))
           !! "action_details" = Some details).
Proof.
  intros Hkey Hseq.
  assert (action_of command = keyword) as Ha
    by (unfold action_of; by rewrite Hseq).
  assert (result (execute_command command self)
            = result (execute_command keyword self)
          /\ stdout (execute_command command self)
             = stdout (execute_command keyword self)
          /\ state (robot (execute_command command self))
             = state (robot (execute_command keyword self))
          /\ (keyword = "LEFT" ->
              LEFT_parameters (robot (execute_command command self))
              = <["action_details" := details]> (LEFT_parameters self))
          /\ (keyword = "RIGHT" ->
              RIGHT_parameters (robot (execute_command command self))
              = <["action_details" := details]> (RIGHT_parameters self)))
    as (Hres & Hout & Hst & Hl & Hr).
  { destruct Hkey as [-> | ->].
    - rewrite (execute_command_call command (mkExecutor m_turn (Some LEFT_ref)))
        by (by rewrite Ha).
      unfold parameters_of, with_action_details. rewrite Ha, Hseq.
      cbn [command_map bool_decide function call read_ref].
      change (command_map "LEFT") with (Some (mkExecutor m_turn (Some LEFT_ref))).
      cbn iota beta. rewrite turn_write_ref, execute_command_LEFT.
      rewrite (turn_kwargs _ (LEFT_parameters self))
        by (by rewrite lookup_insert_ne).
      destruct (turn (LEFT_parameters self) self) as [[b r] out].
      split; [done|]. split; [done|]. split; [done|]. split; [done|].
      discriminate.
    - rewrite (execute_command_call command (mkExecutor m_turn (Some RIGHT_ref)))
        by (by rewrite Ha).
      unfold parameters_of, with_action_details. rewrite Ha, Hseq.
      change (command_map "RIGHT") with (Some (mkExecutor m_turn (Some RIGHT_ref))).
      cbn iota beta. cbn [function call read_ref].
      rewrite turn_write_ref, execute_command_RIGHT.
      rewrite (turn_kwargs _ (RIGHT_parameters self))
        by (by rewrite lookup_insert_ne).
      destruct (turn (RIGHT_parameters self) self) as [[b r] out].
      split; [done|]. split; [done|]. split; [done|]. split; [discriminate|].
      done. }
  do 5 (split; [done|]).
  intros later Hlater.
  destruct (execute_all_parameters_kept later
              (robot (execute_command command self))) as [Hkl Hkr].
  destruct Hkey as [-> | ->].
  - specialize (Hkl Hlater). specialize (Hl eq_refl).
    split; [by rewrite Hkl|]. split; [discriminate|].
    change (parameters_of "LEFT" ?r) with (LEFT_parameters r).
    rewrite Hkl, Hl. apply lookup_insert_eq.
  - specialize (Hkr Hlater). specialize (Hr eq_refl).
    split; [discriminate|]. split; [by rewrite Hkr|].
    change (parameters_of "RIGHT" ?r) with (RIGHT_parameters r).
    rewrite Hkr, Hr. apply lookup_insert_eq.
Qed.

Lemma X8_witness :
  result (execute_command "LEFT 90 degrees"
            (execute_all ["PLACE 1,2,NORTH"] (__init__ MAP_SIZE))) = Return tt
  /\ state (robot (execute_command "LEFT 90 degrees"
                     (execute_all ["PLACE 1,2,NORTH"] (__init__ MAP_SIZE))))
     = (true, Some (1, 2), Some "WEST")
  /\ LEFT_parameters
       (robot (execute_command "LEFT 90 degrees"
                 (execute_all ["PLACE 1,2,NORTH"] (__init__ MAP_SIZE))))
     !! "action_details" = Some "90 degrees"
  /\ LEFT_parameters
       (execute_all ["LEFT"; "MOVE"; "RIGHT now"; "REPORT"]
          (robot (execute_command "LEFT 90 degrees"
                    (execute_all ["PLACE 1,2,NORTH"] (__init__ MAP_SIZE)))))
     !! "action_details" = Some "90 degrees".
Proof.
  assert (Forall (fun c => ~ (action_of c = "LEFT"
                              /\ (1 < length (command_seq c))%nat))
            ["LEFT"; "MOVE"; "RIGHT now"; "REPORT"]) as Hlater
    by (repeat constructor; vm_compute; intros [Ha Hlen];
        (discriminate Ha || lia)).
  destruct (X8_turn_with_text "LEFT 90 degrees" "LEFT" "90 degrees"
              (execute_all ["PLACE 1,2,NORTH"] (__init__ MAP_SIZE))
              (or_introl eq_refl) eq_refl)
    as (Hres & _ & Hst & Hl & _ & Hkept).
  destruct (Hkept _ Hlater) as (Hkl & _ & _).
  split; [rewrite Hres; reflexivity|].
  split; [rewrite Hst; reflexivity|].
  split; [rewrite (Hl eq_refl); apply lookup_insert_eq|].
  rewrite (Hkl eq_refl). apply lookup_insert_eq.
Defined.

(** ** Which exceptions a command can raise *)

Lemma place_raises kwargs self e :
  result (place kwargs self) = Raise e ->
  e = ValueError \/ exists message, e = InvalidOperationException message.
Proof.
  rewrite place_unfold. unfold result.
  by_cases; intros [= <-]; eauto.
Qed.

Lemma invariant_direction self :
  invariant self = true -> placed self = true ->
  exists i, index (direction self) DIRECTIONS = Some i.
Proof.
  intros Hinv Hpl. destruct (invariant_spec self Hinv) as (_ & _ & Hplaced).
  destruct (Hplaced Hpl) as (p & d & _ & _ & -> & Hin).
  by apply index_of_direction.
Qed.

Lemma turn_raises kwargs self e :
  invariant self = true ->
  kwargs !! "direction" = Some "LEFT" \/ kwargs !! "direction" = Some "RIGHT" ->
  result (turn kwargs self) = Raise e -> e = NotPlaced.
Proof.
  intros Hinv Hk. rewrite turn_unfold.
  destruct (placed self) eqn:Hpl; [|by intros [= <-]].
  destruct (invariant_direction self Hinv Hpl) as [i Hi].
  pose proof (index_range _ _ Hi) as Hrange. rewrite Hi.
  assert (i = 0 \/ i = 1 \/ i = 2 \/ i = 3) as Hcases by lia.
  destruct Hk as [-> | ->];
    destruct Hcases as [-> | [-> | [-> | ->]]]; cbn; discriminate.
Qed.

Lemma move_raises kwargs self e :
  invariant self = true ->
  result (move kwargs self) = Raise e ->
  (exists message, e = InvalidOperationException message)
  \/ (e = TypeError /\ kwargs <> ∅).
Proof.
  intros Hinv. rewrite move_unfold.
  destruct (placed self) eqn:Hpl; [|intros [= <-]; left; by eexists].
  case_bool_decide; [|intros [= <-]; by right].
  destruct (invariant_spec self Hinv) as (_ & _ & Hplaced).
  destruct (Hplaced Hpl) as ([x y] & d & -> & _ & -> & Hin).
  destruct (STEP_BY_DIRECTION_lookup d Hin) as [[dx dy] Hstep].
  cbn. rewrite Hstep.
  destruct (is_valid_pos self (x + dx, y + dy)); [discriminate|].
  intros [= <-]. left. by eexists.
Qed.

Lemma report_raises kwargs self e :
  invariant self = true ->
  result (report kwargs self) = Raise e ->
  e = NotPlaced \/ (e = TypeError /\ kwargs <> ∅).
Proof.
  intros Hinv. rewrite report_unfold.
  destruct (placed self) eqn:Hpl; [|intros [= <-]; by left].
  case_bool_decide; [|intros [= <-]; by right].
  destruct (invariant_spec self Hinv) as (_ & _ & Hplaced).
  destruct (Hplaced Hpl) as ([x y] & d & -> & _ & -> & Hin). discriminate.
Qed.

Lemma terminate_raises kwargs self e :
  result (terminate kwargs self) = Raise e ->
  (e = SystemExit 0 /\ kwargs = ∅) \/ (e = TypeError /\ kwargs <> ∅).
Proof.
  rewrite terminate_unfold. case_bool_decide; intros [= <-]; [by left|by right].
Qed.

Lemma command_seq_action command :
  exists rest, command_seq command = action_of command :: rest.
Proof.
  unfold action_of, command_seq.
  destruct (Py.strip command) as [|c s]; [by exists []|].
  cbn [Py.split]. case_match; [by eexists|].
  destruct (Py.split " " (Some 1%nat) s); by eexists.
Qed.

Lemma execute_command_raises (self : Robot) (command : string) (e : exn) :
  invariant self = true -> parameters_intact self = true ->
  result (execute_command command self) = Raise e ->
  (exists message, e = InvalidOperationException message)
  \/ (e = ValueError /\ action_of command = "PLACE")
  \/ (e = TypeError
      /\ (action_of command = "MOVE" \/ action_of command = "REPORT"
          \/ action_of command = "EXIT")
      /\ (1 < length (command_seq command))%nat)
  \/ (e = SystemExit 0 /\ command_seq command = ["EXIT"]).
Proof.
  intros Hinv [Hl Hr]%parameters_intact_spec Hres.
  destruct (command_map (action_of command)) as [ex|] eqn:He.
  2: { rewrite execute_command_unknown in Hres by done.
       injection Hres as <-. left. by eexists. }
  rewrite (execute_command_call _ _ _ He) in Hres.
  assert (invariant (with_action_details command self) = true) as Hinv'
    by (by rewrite (proj1 (with_action_details_invariant command self))).
  assert (forall ref,
            addtional_parameters ex = Some ref ->
            parameters_of command self !! "direction" = read_ref ref self !! "direction")
    as Hdir.
  { intros ref Href. unfold parameters_of. rewrite He.
    destruct ex as [f r]. cbn in Href. subst r.
    destruct (command_seq command) as [|a [|details l]];
      rewrite ?lookup_insert_ne; done. }
  assert (addtional_parameters ex = None ->
          (parameters_of command self = ∅ -> command_seq command = [action_of command])
          /\ (parameters_of command self <> ∅ -> (1 < length (command_seq command))%nat))
    as Hnone.
  { intros Href. unfold parameters_of. rewrite He.
    destruct ex as [f r]. cbn in Href. subst r.
    destruct (command_seq_action command) as [rest Hseq]. rewrite Hseq.
    destruct rest as [|details l]; split; try done.
    intros _. cbn. lia. }
  apply command_map_cases in He.
  destruct He as [[Ha ->]|[[Ha ->]|[[Ha ->]|[[Ha ->]|[[Ha ->]|[Ha ->]]]]]];
    cbn [function call addtional_parameters] in *.
  - apply place_raises in Hres as [-> | Hres]; [right; left; done | by left].
  - apply turn_raises in Hres as ->; [left; by eexists | done |].
    left. by rewrite (Hdir LEFT_ref eq_refl).
  - apply turn_raises in Hres as ->; [left; by eexists | done |].
    right. by rewrite (Hdir RIGHT_ref eq_refl).
  - apply move_raises in Hres as [Hres | [-> Hne]]; [by left | | done].
    right. right. left. split; [done|]. split; [tauto|].
    by apply (proj2 (Hnone eq_refl)).
  - apply report_raises in Hres as [-> | [-> Hne]]; [left; by eexists | | done].
    right. right. left. split; [done|]. split; [tauto|].
    by apply (proj2 (Hnone eq_refl)).
  - apply terminate_raises in Hres as [[-> Hempty] | [-> Hne]].
    + right. right. right. split; [done|].
      rewrite <- Ha. by apply (proj1 (Hnone eq_refl)).
    + right. right. left. split; [done|]. split; [tauto|].
      by apply (proj2 (Hnone eq_refl)).
Qed.

(** X9: in a state that satisfies the invariant, with the dictionaries of
    [command_map] still telling LEFT from RIGHT, a command that raises
    raises the program's own exception, except in three cases: PLACE can
    raise [ValueError]; MOVE, REPORT and EXIT followed by text raise
    [TypeError]; and the bare EXIT raises [SystemExit] with status 0. No
    other exception of the interpreter can come out of a command. *)
Theorem X9_exceptions_of_a_command (self : Robot) (command : string) (e : exn) :
  invariant self = true -> parameters_intact self = true ->
  result (execute_command command self) = Raise e ->
  (exists message, e = InvalidOperationException message)
  \/ (e = ValueError /\ action_of command = "PLACE")
  \/ (e = TypeError
      /\ (action_of command = "MOVE" \/ action_of command = "REPORT"
          \/ action_of command = "EXIT")
      /\ (1 < length (command_seq command))%nat)
  \/ (e = SystemExit 0 /\ command_seq command = ["EXIT"]).
Proof. apply execute_command_raises. Qed.

Lemma X9_witness :
  action_of "PLACE 1;2;NORTH" = "PLACE"
  /\ result (execute_command "PLACE 1;2;NORTH" (__init__ MAP_SIZE))
     = Raise (MalformedArgument "1;2;NORTH").
Proof.
  split; [reflexivity|].
  destruct (X9_exceptions_of_a_command (__init__ MAP_SIZE) "PLACE 1;2;NORTH"
              (MalformedArgument "1;2;NORTH") eq_refl)
    as [[message Hm]|[[H _]|[[H _]|[H _]]]];
    [reflexivity | reflexivity | reflexivity | discriminate H ..].
Defined.

(** ** The loop of [run] over the command lines *)

Lemma run_commands_cons command rest self :
  run_commands (command :: rest) self =
  match execute_command command self with
  | (Return _, self', out) =>
      let '(b, r, out') := run_commands rest self' in (b, r, (out ++ out')%list)
  | (Raise (InvalidOperationException message), self', out) =>
      let '(b, r, out') := run_commands rest self' in
      (b, r, ((out ++ [message]) ++ out')%list)
  | (Raise e, self', out) => (Raise e, self', out)
  end.
Proof.
  cbn [run_commands]. unfold mbind, M_bind, bind, try_except, print.
  destruct (execute_command command self) as [[[[]|e] self'] out];
    [|destruct e]; try reflexivity;
    by destruct (run_commands rest self') as [[b r] out'].
Qed.

Lemma execute_all_parameters_intact_from commands self :
  parameters_intact self = true ->
  parameters_intact (execute_all commands self) = true.
Proof.
  intros Hk. induction commands as [|command commands IH] using rev_ind.
  - done.
  - rewrite execute_all_snoc. by apply execute_command_parameters_intact.
Qed.

Lemma goes_on_cons command commands self :
  goes_on (execute_command command self) = true ->
  (forall i c,
     commands !! i = Some c ->
     goes_on (execute_command c
                (execute_all (take i commands)
                   (robot (execute_command command self)))) = true) ->
  forall i c,
    (command :: commands) !! i = Some c ->
    goes_on (execute_command c (execute_all (take i (command :: commands)) self))
    = true.
Proof.
  intros Hfirst Hrest [|i] c.
  - intros [= <-]. exact Hfirst.
  - intros Hc.
    change (take (S i) (command :: commands)) with (command :: take i commands).
    rewrite execute_all_cons. by apply Hrest.
Qed.

Lemma outputs_cons command commands self :
  outputs (command :: commands) self
  = (printed (execute_command command self)
     ++ outputs commands (robot (execute_command command self)))%list.
Proof. reflexivity. Qed.

Lemma run_commands_goes_on command commands self :
  goes_on (execute_command command self) = true ->
  run_commands (command :: commands) self
  = (result (run_commands commands (robot (execute_command command self))),
     robot (run_commands commands (robot (execute_command command self))),
     (printed (execute_command command self)
      ++ stdout (run_commands commands (robot (execute_command command self))))%list).
Proof.
  intros Hfirst. rewrite run_commands_cons.
  unfold goes_on, printed, result, robot, stdout in *.
  destruct (execute_command command self) as [[[[]|e] self'] out];
    [|destruct e; try discriminate Hfirst]; cbn;
    destruct (run_commands commands self') as [[b r] out']; cbn;
    by rewrite ?app_nil_r.
Qed.

Lemma run_commands_stops command commands self :
  goes_on (execute_command command self) = false ->
  run_commands (command :: commands) self
  = (result (execute_command command self),
     robot (execute_command command self),
     printed (execute_command command self)).
Proof.
  intros Hfirst. rewrite run_commands_cons.
  unfold goes_on, printed, result, robot, stdout in *.
  destruct (execute_command command self) as [[[[]|e] self'] out];
    [discriminate Hfirst|]. destruct e; try discriminate Hfirst; cbn;
    by rewrite app_nil_r.
Qed.

(** The loop without the hypotheses on the state: it runs up to the first
    line after which it does not go on, and ends as that line does. *)
Lemma run_commands_first_stop commands : forall self,
  ((forall i c,
      commands !! i = Some c ->
      goes_on (execute_command c (execute_all (take i commands) self)) = true)
   /\ result (run_commands commands self) = Return tt
   /\ robot (run_commands commands self) = execute_all commands self
   /\ stdout (run_commands commands self) = outputs commands self)
  \/ exists executed command rest,
       commands = (executed ++ command :: rest)%list
       /\ (forall i c,
             executed !! i = Some c ->
             goes_on (execute_command c (execute_all (take i executed) self))
             = true)
       /\ goes_on (execute_command command (execute_all executed self)) = false
       /\ result (run_commands commands self)
          = result (execute_command command (execute_all executed self))
       /\ robot (run_commands commands self)
          = execute_all (executed ++ [command]) self
       /\ stdout (run_commands commands self)
          = outputs (executed ++ [command]) self.
Proof.
  induction commands as [|command commands IH]; intros self.
  - left. split; [|done]. by intros i c [=].
  - destruct (goes_on (execute_command command self)) eqn:Hfirst.
    + rewrite (run_commands_goes_on _ _ _ Hfirst).
      unfold result at 1 3, robot at 1 5, stdout at 1 3. cbn [fst snd].
      destruct (IH (robot (execute_command command self)))
        as [(Hall & Hres & Hrob & Hout)
           |(executed & c & rest & -> & Hall & Hstop & Hres & Hrob & Hout)].
      * left. split; [by apply goes_on_cons|].
        by rewrite execute_all_cons, outputs_cons, Hout.
      * right. exists (command :: executed), c, rest.
        rewrite <- !app_comm_cons, !execute_all_cons, outputs_cons, Hout.
        split; [done|]. split; [by apply goes_on_cons|]. done.
    + right. exists [], command, commands.
      change (execute_all [] self) with self.
      change (execute_all ([] ++ [command]) self)
        with (robot (execute_command command self)).
      change (outputs ([] ++ [command]) self)
        with (printed (execute_command command self) ++ [])%list.
      rewrite (run_commands_stops _ _ _ Hfirst), app_nil_r.
      split; [done|]. split; [by intros i c [=]|]. done.
Qed.

Lemma run_commands_outcomes commands self :
  invariant self = true -> parameters_intact self = true ->
  ((forall i c,
      commands !! i = Some c ->
      goes_on (execute_command c (execute_all (take i commands) self)) = true)
   /\ result (run_commands commands self) = Return tt
   /\ robot (run_commands commands self) = execute_all commands self
   /\ stdout (run_commands commands self) = outputs commands self)
  \/ exists executed command rest,
       commands = (executed ++ command :: rest)%list
       /\ (forall i c,
             executed !! i = Some c ->
             goes_on (execute_command c (execute_all (take i executed) self))
             = true)
       /\ goes_on (execute_command command (execute_all executed self)) = false
       /\ result (run_commands commands self)
          = result (execute_command command (execute_all executed self))
       /\ robot (run_commands commands self)
          = execute_all (executed ++ [command]) self
       /\ stdout (run_commands commands self)
          = outputs (executed ++ [command]) self
       /\ (result (run_commands commands self) = Raise ValueError
           \/ result (run_commands commands self) = Raise TypeError
           \/ result (run_commands commands self) = Raise (SystemExit 0)).
Proof.
  intros Hinv Hk.
  destruct (run_commands_first_stop commands self)
    as [?|(executed & command & rest & Hcommands & Hall & Hstop & Hres & Hrob
           & Hout)];
    [by left|].
  right. exists executed, command, rest. do 6 (split; [done|]).
  rewrite Hres. unfold goes_on in Hstop.
  destruct (result (execute_command command (execute_all executed self)))
    as [[]|e] eqn:He; [discriminate Hstop|].
  destruct (execute_command_raises (execute_all executed self) command e)
    as [[message ->]|[[-> _]|[[-> _]|[-> _]]]];
    [by apply execute_all_invariant
    |by apply execute_all_parameters_intact_from
    |done|discriminate Hstop|tauto..].
Qed.

(** X10: the loop of [run] goes through the lines in order and goes on
    after a line exactly when its command returned or raised the
    program's own exception. So either every line was such a line, and
    then the loop returns and every line has been executed; or the loop
    stops at the first line that is not: the lines before it and that
    line have been executed, the lines behind it have not, and the loop
    ends with the exception of that line, which (from a state that
    satisfies the invariant, with the dictionaries of [command_map]
    intact) is [ValueError], [TypeError] or [SystemExit] with status 0.
    The loop never ends with the program's own exception. The output is,
    for each executed line in order, what its command printed, followed
    by the message of the program's exception when it raised one. *)
Theorem X10_outcomes_of_the_loop (commands : list string) (self : Robot) :
  invariant self = true -> parameters_intact self = true ->
  ((forall i c,
      commands !! i = Some c ->
      goes_on (execute_command c (execute_all (take i commands) self)) = true)
   /\ result (run_commands commands self) = Return tt
   /\ robot (run_commands commands self) = execute_all commands self
   /\ stdout (run_commands commands self) = outputs commands self)
  \/ exists executed command rest,
       commands = (executed ++ command :: rest)%list
       /\ (forall i c,
             executed !! i = Some c ->
             goes_on (execute_command c (execute_all (take i executed) self))
             = true)
       /\ goes_on (execute_command command (execute_all executed self)) = false
       /\ result (run_commands commands self)
          = result (execute_command command (execute_all executed self))
       /\ robot (run_commands commands self)
          = execute_all (executed ++ [command]) self
       /\ stdout (run_commands commands self)
          = outputs (executed ++ [command]) self
       /\ (result (run_commands commands self) = Raise ValueError
           \/ result (run_commands commands self) = Raise TypeError
           \/ result (run_commands commands self) = Raise (SystemExit 0)).
Proof. apply run_commands_outcomes. Qed.

Lemma X10_witness :
  result (run_commands ["PLACE 0,0,NORTH"; "MOVE"; "PLACE x,0,EAST"; "REPORT"]
            (__init__ MAP_SIZE)) = Raise ValueError
  /\ state (robot (run_commands
                     ["PLACE 0,0,NORTH"; "MOVE"; "PLACE x,0,EAST"; "REPORT"]
                     (__init__ MAP_SIZE)))
     = (true, Some (0, 1), Some "NORTH")
  /\ exists executed rest,
       ["PLACE 0,0,NORTH"; "MOVE"; "PLACE x,0,EAST"; "REPORT"]
       = (executed ++ "PLACE x,0,EAST" :: rest)%list
       /\ goes_on (execute_command "PLACE x,0,EAST"
                     (execute_all executed (__init__ MAP_SIZE))) = false.
Proof.
  destruct (X10_outcomes_of_the_loop
              ["PLACE 0,0,NORTH"; "MOVE"; "PLACE x,0,EAST"; "REPORT"]
              (__init__ MAP_SIZE) eq_refl eq_refl)
    as [(_ & Hres & _)
       |(executed & command & rest & _ & _ & _ & _ & _ & _ & _)];
    [discriminate Hres|].
  split; [reflexivity|]. split; [reflexivity|].
  exists ["PLACE 0,0,NORTH"; "MOVE"], ["REPORT"]. split; reflexivity.
Defined.

Lemma run_commands_app commands1 commands2 : forall self,
  run_commands (commands1 ++ commands2) self =
  match run_commands commands1 self with
  | (Return _, self', out) =>
      let '(b, r, out') := run_commands commands2 self' in
      (b, r, (out ++ out')%list)
  | other => other
  end.
Proof.
  induction commands1 as [|command commands1 IH]; intros self.
  - cbn. by destruct (run_commands commands2 self) as [[b r] out'].
  - rewrite <- app_comm_cons, !run_commands_cons.
    destruct (execute_command command self) as [[[[]|e] self'] out];
      [|destruct e]; try reflexivity;
      rewrite IH;
      destruct (run_commands commands1 self') as [[[[]|e1] self1] out1];
      try reflexivity;
      destruct (run_commands commands2 self1) as [[b r] out'];
      by rewrite !app_assoc.
Qed.

Lemma execute_command_EXIT_seq command self :
  command_seq command = ["EXIT"] ->
  execute_command command self
  = (Raise (SystemExit 0), self, ["End of service."]).
Proof.
  intros Hseq.
  assert (action_of command = "EXIT") as Ha
    by (unfold action_of; by rewrite Hseq).
  rewrite (execute_command_call _ (mkExecutor m_terminate None))
    by (by rewrite Ha).
  unfold parameters_of, with_action_details. rewrite Ha, Hseq. cbn.
  rewrite terminate_unfold. by rewrite bool_decide_eq_true_2.
Qed.

(** X11: EXIT ends the loop of [run]. When the lines before it have been
    worked through, a line that holds the keyword EXIT alone prints
    [End of service.] and raises [SystemExit] with status 0, the robot is
    the one the lines before left, and none of the lines behind EXIT is
    executed, whatever they are. *)
Theorem X11_exit_ends_the_loop
    (commands : list string) (command : string) (rest : list string)
    (self : Robot) :
  result (run_commands commands self) = Return tt ->
  command_seq command = ["EXIT"] ->
  run_commands (commands ++ command :: rest) self
  = (Raise (SystemExit 0),
     robot (run_commands commands self),
     (stdout (run_commands commands self) ++ ["End of service."])%list).
Proof.
  intros Hres Hseq. rewrite run_commands_app.
  destruct (run_commands commands self) as [[[[]|e] self'] out]; [|done].
  rewrite run_commands_cons, (execute_command_EXIT_seq _ _ Hseq). done.
Qed.

Lemma X11_witness :
  run_commands (["PLACE 1,1,EAST"; "REPORT"] ++ " EXIT " :: ["MOVE"; "REPORT"])
    (__init__ MAP_SIZE)
  = (Raise (SystemExit 0),
     robot (run_commands ["PLACE 1,1,EAST"; "REPORT"] (__init__ MAP_SIZE)),
     ["1, 1, EAST"; "End of service."]).
Proof.
  exact (X11_exit_ends_the_loop ["PLACE 1,1,EAST"; "REPORT"] " EXIT "
           ["MOVE"; "REPORT"] (__init__ MAP_SIZE) eq_refl eq_refl).
Defined.

(** ** A map without squares *)

Lemma effect_empty_map f self self' :
  effect f self self' ->
  map_size_x self <= 0 \/ map_size_y self <= 0 ->
  placed self = false -> placed self' = false.
Proof.
  destruct 1 as [f self|self x y d Hp Hd|self p Hpl Hp|self d Hpl Hd];
    intros Hsize Hnot; cbn; try congruence.
  apply is_valid_pos_spec in Hp. lia.
Qed.

Lemma execute_command_empty_map command self :
  map_size_x self <= 0 \/ map_size_y self <= 0 ->
  placed self = false ->
  placed (robot (execute_command command self)) = false.
Proof.
  intros Hsize Hnot.
  destruct (with_action_details_state command self) as (_ & Hx & Hy).
  destruct (with_action_details_invariant command self) as [_ Hp].
  destruct (execute_command_effect command self) as [->|(e & _ & Heff)].
  - by rewrite Hp.
  - eapply effect_empty_map; [done| |by rewrite Hp]. by rewrite Hx, Hy.
Qed.

(** X12: on a map without squares (a size of zero or less in one of the
    two dimensions) no sequence of commands ever places the robot: after
    any commands an unplaced robot is still unplaced. *)
Theorem X12_empty_map (commands : list string) (self : Robot) :
  map_size_x self <= 0 \/ map_size_y self <= 0 ->
  placed self = false ->
  placed (execute_all commands self) = false.
Proof.
  intros Hsize Hnot.
  induction commands as [|command commands IH] using rev_ind.
  - done.
  - rewrite execute_all_snoc. apply execute_command_empty_map; [|done].
    by destruct (execute_all_map_size commands self) as [-> ->].
Qed.

Lemma X12_witness :
  placed (execute_all ["PLACE 0,0,NORTH"; "MOVE"; "PLACE 1,0,EAST"]
            (__init__ (5, 0))) = false.
Proof.
  apply (X12_empty_map ["PLACE 0,0,NORTH"; "MOVE"; "PLACE 1,0,EAST"]
           (__init__ (5, 0))); [right; cbn; lia | reflexivity].
Defined.

(** ** Turning in the states the program can reach *)

Lemma turn_returns kwargs self :
  invariant self = true -> placed self = true ->
  kwargs !! "direction" = Some "LEFT" \/ kwargs !! "direction" = Some "RIGHT" ->
  exists d,
    d ∈ DIRECTIONS
    /\ turn kwargs self = (Return tt, set_direction (Some d) self, []).
Proof.
  intros Hinv Hpl Hk.
  destruct (invariant_direction self Hinv Hpl) as [i Hi].
  assert (exists step,
            kwargs !! "direction" = Some "RIGHT" /\ step = 1
            \/ kwargs !! "direction" = Some "LEFT" /\ step = -1)
    as [step Hstep] by (destruct Hk; eauto).
  destruct (turn_step kwargs self i step Hpl Hi Hstep) as (d & Hd & _ & Hturn).
  exists d. split; [by eapply list_elem_of_lookup_2|done].
Qed.

Lemma execute_command_turn_returns command self :
  invariant self = true -> parameters_intact self = true ->
  placed self = true ->
  action_of command = "LEFT" \/ action_of command = "RIGHT" ->
  exists d,
    d ∈ DIRECTIONS
    /\ result (execute_command command self) = Return tt
    /\ stdout (execute_command command self) = []
    /\ state (robot (execute_command command self))
       = (true, pos self, Some d).
Proof.
  intros Hinv [Hl Hr]%parameters_intact_spec Hpl Ha.
  destruct (with_action_details_invariant command self) as [Hinv' Hpl'].
  destruct (with_action_details_state command self) as (Hst & _ & _).
  assert (exists ref,
            command_map (action_of command) = Some (mkExecutor m_turn (Some ref))
            /\ (parameters_of command self !! "direction" = Some "LEFT"
                \/ parameters_of command self !! "direction" = Some "RIGHT"))
    as (ref & He & Hk).
  { unfold parameters_of.
    destruct Ha as [Ha | Ha]; rewrite Ha;
      [exists LEFT_ref | exists RIGHT_ref];
      (split; [reflexivity|]);
      [change (command_map "LEFT") with (Some (mkExecutor m_turn (Some LEFT_ref)))
      |change (command_map "RIGHT") with (Some (mkExecutor m_turn (Some RIGHT_ref)))];
      destruct (command_seq command) as [|a [|details l]];
      rewrite ?lookup_insert_ne by done; cbn [read_ref]; auto. }
  rewrite (execute_command_call _ _ _ He). cbn [function call].
  destruct (turn_returns (parameters_of command self)
              (with_action_details command self)) as (d & Hd & ->);
    [by rewrite Hinv' | by rewrite Hpl' | done |].
  exists d. split; [done|]. split; [done|]. split; [done|].
  unfold state in *. cbn. injection Hst as _ Hpos _.
  by rewrite Hpl', Hpos, Hpl.
Qed.

(** X13: in every state that a new robot reaches through commands, a
    LEFT or RIGHT line never fails once the robot is placed, with or
    without text behind the keyword: the command returns, prints nothing,
    keeps the position and leaves one of the four headings. The
    dictionaries of [command_map], which [execute_command] writes into,
    never lose their [direction] entry. *)
Theorem X13_turn_never_fails_once_placed
    (map_size : Z * Z) (commands : list string) (command : string) :
  placed (execute_all commands (__init__ map_size)) = true ->
  action_of command = "LEFT" \/ action_of command = "RIGHT" ->
  LEFT_parameters (execute_all commands (__init__ map_size)) !! "direction"
    = Some "LEFT"
  /\ RIGHT_parameters (execute_all commands (__init__ map_size)) !! "direction"
     = Some "RIGHT"
  /\ exists d,
       d ∈ DIRECTIONS
       /\ result (execute_command command (execute_all commands (__init__ map_size)))
          = Return tt
       /\ stdout (execute_command command (execute_all commands (__init__ map_size)))
          = []
       /\ state (robot (execute_command command
                          (execute_all commands (__init__ map_size))))
          = (true, pos (execute_all commands (__init__ map_size)), Some d).
Proof.
  intros Hpl Ha.
  pose proof (execute_all_parameters_intact commands map_size) as Hk.
  pose proof (execute_all_invariant commands (__init__ map_size) eq_refl) as Hinv.
  destruct (proj1 (parameters_intact_spec _) Hk) as [Hl Hr].
  split; [done|]. split; [done|].
  by apply execute_command_turn_returns.
Qed.

Lemma X13_witness :
  exists d,
    result (execute_command "LEFT twice"
              (execute_all ["PLACE 2,2,NORTH"; "LEFT direction"; "RIGHT LEFT"]
                 (__init__ MAP_SIZE))) = Return tt
    /\ state (robot (execute_command "LEFT twice"
                       (execute_all ["PLACE 2,2,NORTH"; "LEFT direction"; "RIGHT LEFT"]
                          (__init__ MAP_SIZE))))
       = (true, Some (2, 2), Some d).
Proof.
  destruct (X13_turn_never_fails_once_placed MAP_SIZE
              ["PLACE 2,2,NORTH"; "LEFT direction"; "RIGHT LEFT"] "LEFT twice"
              eq_refl (or_introl eq_refl))
    as (_ & _ & d & _ & Hres & _ & Hst).
  exists d. split; [exact Hres | exact Hst].
Defined.

(** ** What is printed *)

Lemma call_stdout f kwargs self :
  stdout (call f kwargs self) = []
  \/ (f = m_report /\ kwargs = ∅ /\ placed self = true
      /\ result (call f kwargs self) = Return tt
      /\ exists line, stdout (call f kwargs self) = [line])
  \/ (f = m_terminate /\ kwargs = ∅
      /\ result (call f kwargs self) = Raise (SystemExit 0)
      /\ stdout (call f kwargs self) = ["End of service."]).
Proof.
  destruct f; cbn [call].
  - left. rewrite place_unfold. unfold stdout. by_cases; done.
  - left. rewrite turn_unfold. unfold stdout. by_cases; done.
  - left. rewrite move_unfold. unfold stdout. by_cases; done.
  - rewrite report_unfold. unfold stdout, result.
    by_cases; try (by left); right; left;
      match goal with H : bool_decide _ = true |- _ =>
        apply bool_decide_eq_true in H end; eauto 10.
  - rewrite terminate_unfold. unfold stdout, result.
    by_cases; try (by left); right; right;
      match goal with H : bool_decide _ = true |- _ =>
        apply bool_decide_eq_true in H end; eauto 10.
Qed.

(** X14: a command prints at most one line, and only two commands print
    at all: the bare REPORT on a placed robot, which then returns, and
    the bare EXIT, which prints [End of service.] and raises [SystemExit]
    with status 0. PLACE, MOVE, LEFT and RIGHT print nothing, whether
    they succeed or fail, and neither does a command that raises one of
    the program's errors. *)
Theorem X14_what_a_command_prints (command : string) (self : Robot) :
  stdout (execute_command command self) = []
  \/ (command_seq command = ["REPORT"] /\ placed self = true
      /\ result (execute_command command self) = Return tt
      /\ exists line, stdout (execute_command command self) = [line])
  \/ (command_seq command = ["EXIT"]
      /\ result (execute_command command self) = Raise (SystemExit 0)
      /\ stdout (execute_command command self) = ["End of service."]).
Proof.
  destruct (command_map (action_of command)) as [ex|] eqn:He.
  2: { left. by rewrite execute_command_unknown. }
  rewrite (execute_command_call _ _ _ He).
  destruct (with_action_details_invariant command self) as [_ Hpl].
  assert (function ex = m_report \/ function ex = m_terminate ->
          parameters_of command self = ∅ ->
          command_seq command = [action_of command]) as Hseq.
  { intros Hf. unfold parameters_of. rewrite He.
    destruct (command_seq_action command) as [rest ->].
    apply command_map_cases in He.
    destruct He as [[_ ->]|[[_ ->]|[[_ ->]|[[_ ->]|[[_ ->]|[_ ->]]]]]];
      cbn in Hf; destruct Hf as [Hf|Hf]; try discriminate Hf;
      destruct rest as [|details l]; try done;
      intros H; by apply insert_non_empty in H. }
  destruct (call_stdout (function ex) (parameters_of command self)
              (with_action_details command self))
    as [H|[(Hf & Hk & Hp & Hres & Hout)|(Hf & Hk & Hres & Hout)]].
  - by left.
  - right. left. rewrite Hpl in Hp. split; [|done].
    rewrite (Hseq (or_introl Hf) Hk).
    apply command_map_cases in He.
    destruct He as [[_ ->]|[[_ ->]|[[_ ->]|[[_ ->]|[[-> _]|[_ ->]]]]]];
      done.
  - right. right. split; [|done].
    rewrite (Hseq (or_intror Hf) Hk).
    apply command_map_cases in He.
    destruct He as [[_ ->]|[[_ ->]|[[_ ->]|[[_ ->]|[[_ ->]|[-> _]]]]]];
      done.
Qed.

(** ** The driver [run] *)

Lemma upper_char_isspace c c' :
  Py.upper_char c = Some c' -> Py.isspace c' = Py.isspace c.
Proof.
  destruct c as [[] [] [] [] [] [] [] []]; intros H; vm_compute in H;
    (discriminate H || (injection H as <-; reflexivity)).
Qed.

Lemma upper_char_newline c c' :
  Py.upper_char c = Some c' ->
  bool_decide (c' = newline) = bool_decide (c = newline).
Proof.
  destruct c as [[] [] [] [] [] [] [] []]; intros H; vm_compute in H;
    (discriminate H || (injection H as <-; reflexivity)).
Qed.

Lemma upper_char_idempotent c c' :
  Py.upper_char c = Some c' -> Py.upper_char c' = Some c'.
Proof.
  destruct c as [[] [] [] [] [] [] [] []]; intros H; vm_compute in H;
    (discriminate H || (injection H as <-; reflexivity)).
Qed.

Lemma upper_String c s u :
  Py.upper (String c s) = Some u ->
  exists c' u', Py.upper_char c = Some c' /\ Py.upper s = Some u' /\ u = String c' u'.
Proof.
  cbn [Py.upper].
  destruct (Py.upper_char c) as [c'|]; [|done].
  destruct (Py.upper s) as [u'|]; [|done].
  intros [= <-]. eauto.
Qed.

Lemma upper_idempotent s : forall u, Py.upper s = Some u -> Py.upper u = Some u.
Proof.
  induction s as [|c s IH]; intros u.
  - by intros [= <-].
  - intros (c' & u' & Hc & Hs & ->)%upper_String. cbn [Py.upper].
    by rewrite (upper_char_idempotent _ _ Hc), (IH _ Hs).
Qed.

Lemma upper_lstrip s : forall u,
  Py.upper s = Some u -> Py.upper (Py.lstrip s) = Some (Py.lstrip u).
Proof.
  induction s as [|c s IH]; intros u.
  - by intros [= <-].
  - intros Hu. pose proof Hu as (c' & u' & Hc & Hs & ->)%upper_String.
    cbn [Py.lstrip]. rewrite (upper_char_isspace _ _ Hc).
    destruct (Py.isspace c); [by apply IH | done].
Qed.

Lemma upper_rstrip s : forall u,
  Py.upper s = Some u -> Py.upper (Py.rstrip s) = Some (Py.rstrip u).
Proof.
  induction s as [|c s IH]; intros u.
  - by intros [= <-].
  - intros (c' & u' & Hc & Hs & ->)%upper_String.
    specialize (IH _ Hs). cbn [Py.rstrip].
    rewrite (upper_char_isspace _ _ Hc).
    destruct (Py.rstrip s) as [|a t].
    + injection IH as <-. destruct (Py.isspace c); [done|].
      cbn [Py.upper]. by rewrite Hc.
    + apply upper_String in IH as (a' & t' & Ha & Ht & ->).
      cbn [Py.upper]. by rewrite Hc, Ha, Ht.
Qed.

Lemma upper_strip s u :
  Py.upper s = Some u -> Py.upper (Py.strip s) = Some (Py.strip u).
Proof. intros Hu. by apply upper_rstrip, upper_lstrip. Qed.

Lemma upper_split s : forall u,
  Py.upper s = Some u ->
  Forall2 (fun line command => Py.upper line = Some command)
    (Py.split newline None s) (Py.split newline None u).
Proof.
  induction s as [|c s IH]; intros u.
  - intros [= <-]. by repeat constructor.
  - intros (c' & u' & Hc & Hs & ->)%upper_String.
    specialize (IH _ Hs). cbn [Py.split fmap option_fmap option_map].
    rewrite (upper_char_newline _ _ Hc).
    destruct (bool_decide (c = newline)
              && negb (bool_decide (@None nat = Some O))).
    + constructor; [done|exact IH].
    + destruct IH as [|line command lines commands Hline Hrest].
      * repeat constructor. cbn [Py.upper]. by rewrite Hc.
      * constructor; [|done]. cbn [Py.upper]. by rewrite Hc, Hline.
Qed.

Lemma run_lines_upper lines commands :
  Forall2 (fun line command => Py.upper line = Some command) lines commands ->
  forall self, run_lines lines self = Some (run_commands commands self).
Proof.
  induction 1 as [|line command lines commands Hline _ IH]; intros self.
  - done.
  - cbn [run_lines run_commands]. rewrite Hline.
    unfold mbind, M_bind, bind.
    destruct (try_except (execute_command command) print self)
      as [[[[]|e] self'] out]; [|done].
    rewrite IH. by destruct (run_commands commands self') as [[b r] out'].
Qed.

Lemma run_lines_run_commands lines : forall self o,
  run_lines lines self = Some o ->
  exists commands, o = run_commands commands self.
Proof.
  induction lines as [|line lines IH]; intros self o.
  - intros [= <-]. by exists [].
  - cbn [run_lines]. destruct (Py.upper line) as [command|]; [|done].
    destruct (try_except (execute_command command) print self)
      as [[[[]|e] self'] out] eqn:Hexec.
    + destruct (run_lines lines self') as [[[b r] out']|] eqn:Hrest; [|done].
      intros [= <-]. destruct (IH _ _ Hrest) as [commands Hcommands].
      exists (command :: commands). cbn [run_commands].
      unfold mbind, M_bind, bind. by rewrite Hexec, <- Hcommands.
    + intros [= <-]. exists [command]. cbn [run_commands].
      unfold mbind, M_bind, bind. by rewrite Hexec.
Qed.

Lemma run_upper open_file command_file_location content content' self :
  open_file command_file_location = Some content ->
  Py.upper content = Some content' ->
  run open_file command_file_location self
  = Some (run_commands (Py.split newline None (Py.strip content')) self).
Proof.
  intros Hfile Hupper. unfold run. rewrite Hfile.
  by apply run_lines_upper, upper_split, upper_strip.
Qed.

(** X15: [run] treats the command file without regard to the case of its
    letters. For a file of ASCII text, [run] is the loop over the lines
    of the upper-cased text, stripped of the white space around it; so a
    file and the same file in capitals give the same outcome, the same
    robot and the same printed lines. *)
Theorem X15_run_ignores_case
    (open_file : string -> option string) (command_file_location : string)
    (content content' : string) (self : Robot) :
  open_file command_file_location = Some content ->
  Py.upper content = Some content' ->
  run open_file command_file_location self
  = Some (run_commands (Py.split newline None (Py.strip content')) self)
  /\ forall open_file',
       open_file' command_file_location = Some content' ->
       run open_file' command_file_location self
       = run open_file command_file_location self.
Proof.
  intros Hfile Hupper. split; [by eapply run_upper|].
  intros open_file' Hfile'.
  rewrite (run_upper _ _ _ _ _ Hfile Hupper).
  eapply run_upper; [done|]. by eapply upper_idempotent.
Qed.

Lemma X15_witness :
  run (fun _ => Some ("place 1,2,east" ++ String newline "Move"
                      ++ String newline "report" ++ String newline ""))
    "commands.txt" (__init__ MAP_SIZE)
  = Some (run_commands ["PLACE 1,2,EAST"; "MOVE"; "REPORT"] (__init__ MAP_SIZE)).
Proof.
  exact (proj1 (X15_run_ignores_case
                  (fun _ => Some ("place 1,2,east" ++ String newline "Move"
                                  ++ String newline "report" ++ String newline ""))
                  "commands.txt" _ _ (__init__ MAP_SIZE) eq_refl eq_refl)).
Defined.

(** X16: how [run] ends. When [open] raises [FileNotFoundError], [run]
    prints [<location> does not exists. Failed to run.] and raises
    [SystemExit] with status 1, and the robot is untouched. When the file
    is opened and read and its text is ASCII, [run] is the loop over the
    lines of the upper-cased text, and it never ends with status 1 nor
    with the program's own exception: it returns, or ends with
    [SystemExit] of status 0 (EXIT), [ValueError] or [TypeError]; and the
    robot it leaves satisfies the invariant. *)
Theorem X16_outcomes_of_run
    (open_file : string -> option string) (command_file_location : string)
    (self : Robot) :
  invariant self = true -> parameters_intact self = true ->
  (open_file command_file_location = None ->
   run open_file command_file_location self
   = Some (Raise (SystemExit 1), self,
           [command_file_location ++ " does not exists. Failed to run."]))
  /\ (forall content content',
        open_file command_file_location = Some content ->
        Py.upper content = Some content' ->
        exists o,
          run open_file command_file_location self = Some o
          /\ o = run_commands (Py.split newline None (Py.strip content')) self
          /\ invariant (robot o) = true
          /\ (result o = Return tt \/ result o = Raise ValueError
              \/ result o = Raise TypeError
              \/ result o = Raise (SystemExit 0))).
Proof.
  intros Hinv Hk. split.
  - intros Hfile. unfold run. by rewrite Hfile.
  - intros content content' Hfile Hupper.
    eexists. split; [by eapply run_upper|]. split; [done|]. split.
    + destruct (run_commands_robot
                  (Py.split newline None (Py.strip content')) self)
        as (executed & _ & ->).
      by apply execute_all_invariant.
    + destruct (run_commands_outcomes
                  (Py.split newline None (Py.strip content')) self Hinv Hk)
        as [(_ & Hres & _)|(_ & _ & _ & _ & _ & _ & _ & _ & _ & Hres)]; tauto.
Qed.

Lemma X16_witness :
  run (fun location =>
         if bool_decide (location = "commands.txt")
         then Some ("place 0,0,north" ++ String newline "move now"
                    ++ String newline "report")
         else None)
    "robot.txt" (__init__ MAP_SIZE)
  = Some (Raise (SystemExit 1), __init__ MAP_SIZE,
          ["robot.txt does not exists. Failed to run."])
  /\ exists o,
       run (fun location =>
              if bool_decide (location = "commands.txt")
              then Some ("place 0,0,north" ++ String newline "move now"
                         ++ String newline "report")
              else None)
         "commands.txt" (__init__ MAP_SIZE) = Some o
       /\ o = run_commands ["PLACE 0,0,NORTH"; "MOVE NOW"; "REPORT"]
                (__init__ MAP_SIZE)
       /\ result o = Raise TypeError
       /\ invariant (robot o) = true.
Proof.
  split.
  - apply (proj1 (X16_outcomes_of_run _ "robot.txt" (__init__ MAP_SIZE)
                    eq_refl eq_refl)).
    vm_compute. reflexivity.
  - destruct (proj2 (X16_outcomes_of_run
                       (fun location =>
                          if bool_decide (location = "commands.txt")
                          then Some ("place 0,0,north" ++ String newline "move now"
                                     ++ String newline "report")
                          else None)
                       "commands.txt" (__init__ MAP_SIZE) eq_refl eq_refl)
                ("place 0,0,north" ++ String newline "move now"
                 ++ String newline "report")
                ("PLACE 0,0,NORTH" ++ String newline "MOVE NOW"
                 ++ String newline "REPORT"))
      as (o & Hrun & Ho & Hinv & _);
      [vm_compute; reflexivity | vm_compute; reflexivity |].
    exists o. split; [exact Hrun|]. split; [exact Ho|].
    split; [rewrite Ho; reflexivity | exact Hinv].
Defined.

(** X17: a command file that is empty, or holds white space only, is read
    as one empty command line: [run] prints [Invalid command. Abort.]
    once, returns, and leaves the robot as it was. *)
Theorem X17_empty_command_file
    (open_file : string -> option string) (command_file_location : string)
    (content : string) (self : Robot) :
  open_file command_file_location = Some content ->
  Py.strip content = EmptyString ->
  run open_file command_file_location self
  = Some (Return tt, self, ["Invalid command. Abort."]).
Proof.
  intros Hfile Hempty. unfold run. rewrite Hfile, Hempty.
  cbn [Py.split run_lines Py.upper]. unfold try_except.
  by rewrite (execute_command_unknown EmptyString self eq_refl).
Qed.

Lemma X17_witness :
  run (fun _ => Some (String newline (String " " (String newline EmptyString))))
    "commands.txt" (__init__ MAP_SIZE)
  = Some (Return tt, __init__ MAP_SIZE, ["Invalid command. Abort."]).
Proof.
  exact (X17_empty_command_file
           (fun _ => Some (String newline (String " " (String newline EmptyString))))
           "commands.txt" _ (__init__ MAP_SIZE) eq_refl eq_refl).
Defined.

